(** * Displayed-data export pipeline of useDisplayedDataExport.ts

    Shallow embedding of the export hook in
    src/src/hooks/useDisplayedDataExport.ts: table discovery
    ([scanForTables], [scanForTablesIncludingSubTabs]), cell extraction with
    the scroll/overflow neutraliser ([extractTableData]), the CSV serialiser
    ([escapeCSVValue], [createCSVContent], [exportToCSV]) and the export
    orchestrator ([exportDisplayedData]).

    JavaScript strings are sequences of UTF-16 code units, modelled as
    [list Z].  DOM reads are functions of a [Doc] record, DOM writes go
    through an explicit error/state monad over the element store. *)

From Stdlib Require Import Ascii String ZArith Lia.
From stdpp Require Import base gmap list.

Open Scope Z_scope.

(* ------------------------------------------------------------------ *)
(** ** JavaScript strings *)

Abbreviation jstr := (list Z).

(** ASCII literal to code units. *)
Fixpoint lit (s : string) : jstr :=
  match s with
  | EmptyString => []
  | String c s' => Z.of_nat (nat_of_ascii c) :: lit s'
  end.

Definition c_comma : Z := 44.
Definition c_quote : Z := 34.
Definition c_nl : Z := 10.
Definition c_dollar : Z := 36.
Definition c_euro : Z := 8364.
Definition c_pound : Z := 163.
Definition c_backslash : Z := 92.

(** [String.prototype.includes] for a single code unit. *)
Definition includes (s : jstr) (c : Z) : bool := existsb (Z.eqb c) s.

(** White space and line terminators removed by [String.prototype.trim]. *)
Definition is_js_ws (c : Z) : bool :=
  (9 <=? c) && (c <=? 13) || (c =? 32) || (c =? 160) || (c =? 5760)
  || (8192 <=? c) && (c <=? 8202) || (c =? 8232) || (c =? 8233)
  || (c =? 8239) || (c =? 8287) || (c =? 12288) || (c =? 65279).

Fixpoint trim_start (s : jstr) : jstr :=
  match s with
  | c :: s' => if is_js_ws c then trim_start s' else s
  | [] => []
  end.

Definition trim (s : jstr) : jstr := rev (trim_start (rev (trim_start s))).

(** [s.startsWith(p)] *)
Fixpoint startsWith (s p : jstr) {struct p} : bool :=
  match p, s with
  | [], _ => true
  | c :: p', d :: s' => (c =? d) && startsWith s' p'
  | _ :: _, [] => false
  end.

(** [parts.join(sep)] *)
Fixpoint join (sep : jstr) (parts : list jstr) : jstr :=
  match parts with
  | [] => []
  | [p] => p
  | p :: ps => p ++ sep ++ join sep ps
  end.

(** Decimal [Number.prototype.toString] for non-negative integers (the
    fuel, one more than the bit length, exceeds the number of digits). *)
Fixpoint digits_rev (fuel : nat) (n : Z) : jstr :=
  match fuel with
  | O => []
  | S f => (48 + n mod 10) :: (if n <? 10 then [] else digits_rev f (n / 10))
  end.

Definition num_toString (n : Z) : jstr :=
  rev (digits_rev (Z.to_nat (Z.log2 n) + 1) n).

(* ------------------------------------------------------------------ *)
(** ** CSV serialiser *)

(** [value.replace(/DQ/g, DQ DQ)]: every double quote (DQ) doubled. *)
Fixpoint double_quotes (v : jstr) : jstr :=
  match v with
  | [] => []
  | c :: v' => if c =? c_quote then c_quote :: c_quote :: double_quotes v'
               else c :: double_quotes v'
  end.

(** [escapeCSVValue] *)
Definition escapeCSVValue (value : jstr) : jstr :=
  if includes value c_comma || includes value c_quote || includes value c_nl
  then [c_quote] ++ double_quotes value ++ [c_quote]
  else value.

(** A field parser following RFC 4180: a field that starts with a double
    quote is a quoted field whose inner doubled quotes stand for one quote
    and which must end right after its closing quote; any other field is
    taken verbatim and may not contain a comma, a quote or a line feed. *)
Fixpoint csv_quoted_body (s : jstr) : option jstr :=
  match s with
  | [] => None
  | c :: s' =>
      if c =? c_quote then
        match s' with
        | [] => Some []
        | d :: s'' => if d =? c_quote then (cons c_quote) <$> csv_quoted_body s''
                      else None
        end
      else (cons c) <$> csv_quoted_body s'
  end.

Definition csv_parse_field (s : jstr) : option jstr :=
  match s with
  | c :: s' => if c =? c_quote then csv_quoted_body s'
               else if includes s c_comma || includes s c_nl then None else Some s
  | [] => Some []
  end.

(** A CSV document parser following RFC 4180 with line feeds as record
    separators: a character-by-character automaton over the states "at
    the start of a field", "inside an unquoted field", "inside a quoted
    field" and "just after a quote inside a quoted field". *)
Inductive PState := PStart | PUnq | PQuo | PAfter.

Fixpoint csv_go (s : jstr) (ps : PState) (field : jstr) (record : list jstr)
    (records : list (list jstr)) : option (list (list jstr)) :=
  match s with
  | [] => match ps with
          | PQuo => None
          | _ => Some (records ++ [record ++ [field]])
          end
  | c :: s' =>
      match ps with
      | PStart | PUnq =>
          if c =? c_comma then csv_go s' PStart [] (record ++ [field]) records
          else if c =? c_nl then csv_go s' PStart [] [] (records ++ [record ++ [field]])
          else if c =? c_quote then
            match ps with
            | PStart => csv_go s' PQuo field record records
            | _ => None
            end
          else csv_go s' PUnq (field ++ [c]) record records
      | PQuo =>
          if c =? c_quote then csv_go s' PAfter field record records
          else csv_go s' PQuo (field ++ [c]) record records
      | PAfter =>
          if c =? c_quote then csv_go s' PQuo (field ++ [c_quote]) record records
          else if c =? c_comma then csv_go s' PStart [] (record ++ [field]) records
          else if c =? c_nl then csv_go s' PStart [] [] (records ++ [record ++ [field]])
          else None
      end
  end.

Definition csv_parse (s : jstr) : option (list (list jstr)) := csv_go s PStart [] [] [].

(* ------------------------------------------------------------------ *)
(** ** Data model *)

(** [ExportConfig['options']] *)
Record Options := {
  includeHeaders : bool;
  preserveFormatting : bool;
  includeRowNumbers : bool;
  separateSheets : bool;
  includeMetadata : bool
}.

(** [TableData['metadata']] *)
Record Metadata := {
  originalRowCount : Z;
  originalColumnCount : Z;
  exportedAt : jstr
}.

(** [TableData] *)
Record TableData := {
  td_name : jstr;
  headers : list jstr;
  rows : list (list jstr);
  metadata : option Metadata
}.

(** Element references ([HTMLTableElement], [HTMLElement]) are compared by
    identity: an element is its reference number. *)
Abbreviation elem := nat.

(** [DisplayedTable] *)
Record DisplayedTable := {
  dt_id : jstr;
  dt_name : jstr;
  element : option elem;
  rowCount : Z;
  columnCount : Z;
  isVisible : bool
}.

(** [ExportConfig]; [format] is the runtime string, the TypeScript union
    type is not enforced at run time (the switch has a default branch). *)
Record ExportConfig := {
  format : jstr;
  fileName : jstr;
  options : Options;
  tables : list DisplayedTable;
  tabName : jstr
}.

(** A [td] or [th] element as read by the extractor: whether it is a [th],
    its [textContent] and its [innerHTML]. *)
Record Cell := {
  cell_th : bool;
  textContent : jstr;
  innerHTML : jstr
}.

(** A [tr]: the cells returned by [row.querySelectorAll('td, th')]. *)
Abbreviation Row := (list Cell).

(** An element among the [previousElementSibling] chain of a table. *)
Record Sibling := {
  tagName : jstr;
  sib_text : jstr
}.

(** Read-only DOM queries the hook performs. *)
Record Doc := {
  (** [container.querySelectorAll('table')], in document order *)
  tables_under : elem -> list elem;
  (** textContent of [table.querySelector('caption')], if there is one *)
  caption_of : elem -> option jstr;
  (** the [previousElementSibling] chain, nearest first *)
  previous_siblings : elem -> list Sibling;
  (** [table.querySelectorAll('tr')] with each row's cells *)
  rows_of : elem -> list Row;
  (** [table.offsetParent !== null] *)
  has_offsetParent : elem -> bool;
  (** [getComputedStyle(table).display] and [.visibility] *)
  computed_display : elem -> jstr;
  computed_visibility : elem -> jstr;
  (** [table.closest('.overflow-x-auto, .overflow-auto, .overflow-scroll')] *)
  closest_scroll : elem -> option elem;
  (** [table.parentElement] *)
  parentElement : elem -> option elem
}.

(** The mutable part of an element the extractor touches: inline
    [style.width], [style.maxWidth], [style.overflow] and [scrollLeft]. *)
Record ElState := {
  st_width : jstr;
  st_maxWidth : jstr;
  st_overflow : jstr;
  scrollLeft : Z
}.

(** An element never written to has empty inline styles and no scroll. *)
Definition el_default : ElState :=
  {| st_width := []; st_maxWidth := []; st_overflow := []; scrollLeft := 0 |}.

(** Observable side effects of an export. *)
Inductive Effect :=
  | SetIsExporting (b : bool)
  | ConsoleError (msg : jstr)
  | DownloadCSV (content : jstr) (file : jstr)
  | PdfSave (file : jstr).

(** The world the hook runs in. *)
Record World := {
  els : gmap elem ElState;
  isExporting : bool;
  trace : list Effect
}.

Definition get_el (w : World) (e : elem) : ElState :=
  default el_default (els w !! e).

(** Thrown JavaScript errors, by message. *)
Abbreviation exn := jstr.

Inductive Res (A : Type) :=
  | Ok (a : A)
  | Throw (e : exn).
Arguments Ok {A} a.
Arguments Throw {A} e.

(** Error/state monad: a computation may throw, the world is threaded. *)
Definition M (A : Type) := World -> World * Res A.

Definition ret {A} (a : A) : M A := fun w => (w, Ok a).
Definition throw {A} (e : exn) : M A := fun w => (w, Throw e).
Definition bindM {A B} (m : M A) (k : A -> M B) : M B :=
  fun w => match m w with
           | (w', Ok a) => k a w'
           | (w', Throw e) => (w', Throw e)
           end.

Notation "'let!' x := m 'in' k" := (bindM m (fun x => k))
  (at level 200, x name, m at level 100, k at level 200).
Notation "m ;; k" := (bindM m (fun _ => k)) (at level 100, right associativity).

Definition get : M World := fun w => (w, Ok w).

Definition emit (ef : Effect) : M unit :=
  fun w => ({| els := els w; isExporting := isExporting w; trace := trace w ++ [ef] |},
            Ok tt).

Definition update_el (e : elem) (f : ElState -> ElState) : M unit :=
  fun w => ({| els := <[e := f (get_el w e)]> (els w); isExporting := isExporting w;
               trace := trace w |}, Ok tt).

Definition set_width (e : elem) (v : jstr) : M unit :=
  update_el e (fun s => {| st_width := v; st_maxWidth := st_maxWidth s;
                           st_overflow := st_overflow s; scrollLeft := scrollLeft s |}).
Definition set_maxWidth (e : elem) (v : jstr) : M unit :=
  update_el e (fun s => {| st_width := st_width s; st_maxWidth := v;
                           st_overflow := st_overflow s; scrollLeft := scrollLeft s |}).
Definition set_overflow (e : elem) (v : jstr) : M unit :=
  update_el e (fun s => {| st_width := st_width s; st_maxWidth := st_maxWidth s;
                           st_overflow := v; scrollLeft := scrollLeft s |}).
Definition set_scrollLeft (e : elem) (v : Z) : M unit :=
  update_el e (fun s => {| st_width := st_width s; st_maxWidth := st_maxWidth s;
                           st_overflow := st_overflow s; scrollLeft := v |}).

(** [setIsExporting(b)] *)
Definition setIsExporting (b : bool) : M unit :=
  fun w => ({| els := els w; isExporting := b; trace := trace w ++ [SetIsExporting b] |},
            Ok tt).

(** [try { m } finally { fin }]: the result of [m] stands unless the
    finaliser itself throws. *)
Definition try_finally {A} (m : M A) (fin : M unit) : M A :=
  fun w => match m w with
           | (w1, r) => match fin w1 with
                        | (w2, Ok _) => (w2, r)
                        | (w2, Throw e) => (w2, Throw e)
                        end
           end.

(** [try { m } catch (error) { h error }] *)
Definition try_catch {A} (m : M A) (h : exn -> M A) : M A :=
  fun w => match m w with
           | (w1, Ok a) => (w1, Ok a)
           | (w1, Throw e) => h e w1
           end.

Fixpoint for_each {A} (f : A -> M unit) (l : list A) : M unit :=
  match l with
  | [] => ret tt
  | x :: l' => f x ;; for_each f l'
  end.

Fixpoint mapM {A B} (f : A -> M B) (l : list A) : M (list B) :=
  match l with
  | [] => ret []
  | x :: l' => let! y := f x in let! ys := mapM f l' in ret (y :: ys)
  end.

(* ------------------------------------------------------------------ *)
(** ** Cell/row extractor and scroll/overflow neutraliser *)

(** [innerHTML.match(/[\\$€£]/)]: the character class holds a backslash,
    the dollar sign, the euro sign and the pound sign; the first code unit
    of the markup in that class is returned. *)
Definition currencyMatch (html : jstr) : option Z :=
  find (fun c => (c =? c_backslash) || (c =? c_dollar) || (c =? c_euro) || (c =? c_pound))
       html.

Definition has_currency (s : jstr) : bool :=
  includes s c_dollar || includes s c_euro || includes s c_pound.

(** The value pushed for one cell ([cells.forEach] body). *)
Definition cellValue (options : Options) (cell : Cell) : jstr :=
  if preserveFormatting options then
    let cv := trim (textContent cell) in
    let html := innerHTML cell in
    if has_currency html then
      let text := trim (textContent cell) in
      if negb (bool_decide (text = [])) && negb (has_currency text) then
        match currencyMatch html with
        | Some ch => ch :: text
        | None => cv
        end
      else cv
    else cv
  else trim (textContent cell).

(** [rows.forEach((row, rowIndex) => ...)], threading [headers] and
    [extractedData]. *)
Fixpoint extract_rows (options : Options) (rowIndex : Z) (rs : list Row)
    (hdrs : list jstr) (extractedData : list (list jstr)) : list jstr * list (list jstr) :=
  match rs with
  | [] => (hdrs, extractedData)
  | row :: rs' =>
      let rowData := map (cellValue options) row in
      if (rowIndex =? 0) && (existsb cell_th row || includeHeaders options) then
        extract_rows options (rowIndex + 1) rs' rowData extractedData
      else
        let rowData' := if includeRowNumbers options
                        then num_toString (Z.of_nat (length extractedData) + 1) :: rowData
                        else rowData in
        extract_rows options (rowIndex + 1) rs' hdrs (extractedData ++ [rowData'])
  end.

(** [originalOverflow || '']: [undefined] and the empty string give ''. *)
Definition or_empty (o : option jstr) : jstr :=
  match o with
  | Some s => if bool_decide (s = []) then [] else s
  | None => []
  end.

(** A point of the [try] block where the runtime may raise: [raise i] is
    the error raised just before step [i], if any. *)
Definition checkpoint (raise : nat -> option exn) (i : nat) : M unit :=
  match raise i with
  | Some e => throw e
  | None => ret tt
  end.

Definition noRaise : nat -> option exn := fun _ => None.

(** [tableContainer]: the closest horizontal-scroll ancestor, else the
    parent element. *)
Definition tableContainerOf (dom : Doc) (table : elem) : option elem :=
  match closest_scroll dom table with
  | Some c => Some c
  | None => parentElement dom table
  end.

(** The value [extractTableData] returns for the rows [rs] of the table:
    [headers] (with the [#] label prepended when row numbers are on and
    there is a header), the data rows, and the optional metadata. *)
Definition tableDataOf (options : Options) (nowStr : jstr) (rs : list Row) : TableData :=
  let '(hdrs0, extractedData) := extract_rows options 0 rs [] [] in
  let hdrs := if includeRowNumbers options && negb (bool_decide (hdrs0 = []))
              then lit "#" :: hdrs0 else hdrs0 in
  {| td_name := [];
     headers := hdrs;
     rows := extractedData;
     metadata := if includeMetadata options
                 then Some {| originalRowCount := Z.of_nat (length rs);
                              originalColumnCount := Z.of_nat (length hdrs);
                              exportedAt := nowStr |}
                 else None |}.

(** The [try] block of [extractTableData]: neutralise the scroll and
    width constraints, then read the rows. The layout reads
    ([table.offsetWidth], [tableContainer?.offsetWidth]) have no modelled
    effect; [nowStr] is [format(new Date(), 'PPP p')]. *)
Definition extractTableData_try (dom : Doc) (raise : nat -> option exn) (nowStr : jstr)
    (table : elem) (options : Options) (tableContainer : option elem) : M TableData :=
  checkpoint raise 0 ;;
  (match tableContainer with
   | Some c => set_overflow c (lit "visible") ;; checkpoint raise 1 ;; set_scrollLeft c 0
   | None => ret tt
   end) ;;
  checkpoint raise 2 ;;
  set_width table (lit "max-content") ;;
  checkpoint raise 3 ;;
  set_maxWidth table (lit "none") ;;
  checkpoint raise 4 ;;
  let td := tableDataOf options nowStr (rows_of dom table) in
  checkpoint raise 5 ;;
  ret td.

(** The [finally] block of [extractTableData]. *)
Definition extractTableData_finally (table : elem) (tableContainer : option elem)
    (originalWidth originalMaxWidth : jstr) (originalOverflow : option jstr)
    (originalScrollLeft : Z) : M unit :=
  set_width table originalWidth ;;
  set_maxWidth table originalMaxWidth ;;
  match tableContainer with
  | Some c => set_overflow c (or_empty originalOverflow) ;;
              set_scrollLeft c originalScrollLeft
  | None => ret tt
  end.

(** [extractTableData(table, options)] *)
Definition extractTableData (dom : Doc) (raise : nat -> option exn) (nowStr : jstr)
    (table : elem) (options : Options) : M TableData :=
  let tableContainer := tableContainerOf dom table in
  let! w := get in
  let originalScrollLeft :=
    match tableContainer with Some c => scrollLeft (get_el w c) | None => 0 end in
  let originalWidth := st_width (get_el w table) in
  let originalMaxWidth := st_maxWidth (get_el w table) in
  let originalOverflow := option_map (fun c => st_overflow (get_el w c)) tableContainer in
  try_finally
    (extractTableData_try dom raise nowStr table options tableContainer)
    (extractTableData_finally table tableContainer originalWidth originalMaxWidth
       originalOverflow originalScrollLeft).

(* ------------------------------------------------------------------ *)
(** ** CSV output *)

Definition csv_line (cells : list jstr) : jstr := join (lit ",") (map escapeCSVValue cells).

(** [createCSVContent(tableData, options)] *)
Definition createCSVContent (tableData : TableData) (options : Options) : jstr :=
  let lines :=
    (if includeHeaders options && negb (bool_decide (headers tableData = []))
     then [csv_line (headers tableData)] else [])
    ++ map csv_line (rows tableData) in
  join [c_nl] lines.

(** [name.replace(/[^a-z0-9]/gi, '_')] *)
Definition sanitize (name : jstr) : jstr :=
  map (fun c => if (48 <=? c) && (c <=? 57) || (65 <=? c) && (c <=? 90)
                   || (97 <=? c) && (c <=? 122) then c else 95) name.

(** [downloadCSV(content, fileName)]: a Blob link is created and clicked. *)
Definition downloadCSV (content fileName : jstr) : M unit :=
  emit (DownloadCSV content fileName).

(** The per-table sections of the single-file branch
    ([tablesData.forEach((tableData, index) => ...)]). *)
Fixpoint csv_sections (options : Options) (index : Z) (tablesData : list TableData) : jstr :=
  match tablesData with
  | [] => []
  | td :: tds =>
      (if index >? 0 then [c_nl] else []) ++ td_name td ++ [c_nl]
      ++ createCSVContent td options ++ [c_nl]
      ++ csv_sections options (index + 1) tds
  end.

(** [exportToCSV(tablesData, config)] *)
Definition exportToCSV (nowStr : jstr) (tablesData : list TableData) (config : ExportConfig)
    : M unit :=
  let opts := options config in
  if separateSheets opts && (1 <? length tablesData)%nat then
    for_each (fun td => downloadCSV (createCSVContent td opts)
                          (fileName config ++ lit "-" ++ sanitize (td_name td) ++ lit ".csv"))
             tablesData
  else
    let meta :=
      if includeMetadata opts then
        tabName config ++ lit " - Exported Data" ++ [c_nl]
        ++ lit "Generated: " ++ nowStr ++ [c_nl]
        ++ lit "Tables: " ++ num_toString (Z.of_nat (length tablesData)) ++ [c_nl; c_nl]
      else [] in
    downloadCSV (meta ++ csv_sections opts 0 tablesData) (fileName config ++ lit ".csv").

(* ------------------------------------------------------------------ *)
(** ** PDF output and the export orchestrator *)

(** What the hook's environment provides: the DOM, the runtime errors the
    extraction of each table may raise, the formatted current date, and
    the jsPDF/autoTable library calls of [exportToPDF] (which either
    complete or raise). *)
Record Env := {
  doc : Doc;
  raises : elem -> nat -> option exn;
  nowStr : jstr;
  pdfLib : list TableData -> ExportConfig -> option exn
}.

(** [exportToPDF(tablesData, config)]: the page layout is drawn through
    jsPDF and autoTable ([pdfLib]); the document is saved at the end. *)
Definition exportToPDF (env : Env) (tablesData : list TableData) (config : ExportConfig)
    : M unit :=
  match pdfLib env tablesData config with
  | Some e => throw e
  | None => emit (PdfSave (fileName config ++ lit ".pdf"))
  end.

(** [config.tables.filter(table => table.element).map(...)]: the element
    is asserted non-null ([table.element!]) after the filter. *)
Definition selected_elements (ts : list DisplayedTable) : list (DisplayedTable * elem) :=
  omap (fun t => match element t with Some e => Some (t, e) | None => None end) ts.

(** The [try] block of [exportDisplayedData]. *)
Definition exportBody (env : Env) (config : ExportConfig) : M unit :=
  let! tablesData :=
    mapM (fun '(t, e) =>
            let! data := extractTableData (doc env) (raises env e) (nowStr env) e (options config) in
            ret {| td_name := dt_name t; headers := headers data; rows := rows data;
                   metadata := metadata data |})
         (selected_elements (tables config)) in
  if bool_decide (tablesData = []) then throw (lit "No table data to export")
  else if bool_decide (format config = lit "pdf") then exportToPDF env tablesData config
  else if bool_decide (format config = lit "csv") then exportToCSV (nowStr env) tablesData config
  else if bool_decide (format config = lit "excel") then exportToCSV (nowStr env) tablesData config
  else throw (lit "Unsupported export format: " ++ format config).

(** [exportDisplayedData(config)] *)
Definition exportDisplayedData (env : Env) (config : ExportConfig) : M unit :=
  setIsExporting true ;;
  try_finally
    (try_catch (exportBody env config)
       (fun error => emit (ConsoleError error) ;; throw error))
    (setIsExporting false).

(* ------------------------------------------------------------------ *)
(** ** Table discovery *)

(** [tagName.match(/^H[1-6]$/)] *)
Definition is_heading (tag : jstr) : bool :=
  match tag with
  | [h; d] => (h =? 72) && (49 <=? d) && (d <=? 54)
  | _ => false
  end.

(** The [while (current && searchCount < 5)] loop over the preceding
    siblings: the name found so far and the [previousElements] snippets. *)
Fixpoint walk_siblings (searchCount : Z) (sibs : list Sibling) (tableName : jstr)
    (previousElements : list jstr) : jstr * list jstr :=
  match sibs with
  | [] => (tableName, previousElements)
  | current :: rest =>
      if searchCount <? 5 then
        if is_heading (tagName current) then
          let t := trim (sib_text current) in
          ((if bool_decide (t = []) then tableName else t), previousElements)
        else
          let t := trim (sib_text current) in
          let pe := if negb (bool_decide (t = [])) && (Z.of_nat (length t) <? 100)
                    then previousElements ++ [t] else previousElements in
          walk_siblings (searchCount + 1) rest tableName pe
      else (tableName, previousElements)
  end.

(** The name [scanForTables] gives the table at position [index]. *)
Definition tableNameOf (dom : Doc) (index : Z) (table : elem) : jstr :=
  let tableName := lit "Table " ++ num_toString (index + 1) in
  match caption_of dom table with
  | Some cap => let t := trim cap in if bool_decide (t = []) then tableName else t
  | None =>
      let '(tn, previousElements) := walk_siblings 0 (previous_siblings dom table) tableName [] in
      if startsWith tn (lit "Table ") && negb (bool_decide (previousElements = []))
      then default tn (last previousElements)
      else tn
  end.

(** [scanForTables(container)]; [nowMs] is [Date.now()]. *)
Definition scanForTables (dom : Doc) (nowMs : Z) (container : elem) : list DisplayedTable :=
  imap (fun i table =>
          let index := Z.of_nat i in
          let rs := rows_of dom table in
          {| dt_id := lit "table-" ++ num_toString index ++ lit "-" ++ num_toString nowMs;
             dt_name := tableNameOf dom index table;
             element := Some table;
             rowCount := Z.of_nat (length rs);
             columnCount := match rs with r :: _ => Z.of_nat (length r) | [] => 0 end;
             isVisible := has_offsetParent dom table
                          && negb (bool_decide (computed_display dom table = lit "none"))
                          && negb (bool_decide (computed_visibility dom table = lit "hidden")) |})
       (tables_under dom container).

(* ------------------------------------------------------------------ *)
(** ** Tab-aware collector *)

(** The [collected] array and the [seen] set of
    [scanForTablesIncludingSubTabs]. *)
Record CState := {
  collected : list DisplayedTable;
  seen : gset elem
}.

Definition c_emdash : Z := 8212.

(** [collectVisible(prefix, searchContext)] applied to the tables
    [scanForTables(searchRoot)] returned ([found]). *)
Definition collectVisible (prefix : jstr) (found : list DisplayedTable) (st : CState) : CState :=
  fold_left
    (fun st t =>
       match element t with
       | Some e =>
           if bool_decide (e ∈ seen st) then st
           else {| collected := collected st ++
                    [{| dt_id := dt_id t ++ lit "-" ++
                                 (if bool_decide (prefix = []) then lit "active" else prefix);
                        dt_name := if bool_decide (prefix = []) then dt_name t
                                   else prefix ++ [32; c_emdash; 32] ++ dt_name t;
                        element := element t;
                        rowCount := rowCount t;
                        columnCount := columnCount t;
                        isVisible := true |}];
                   seen := {[e]} ∪ seen st |}
       | None => st
       end)
    (filter (fun t => isVisible t && (0 <? rowCount t)) found) st.

(** An element with [role="tab"] under a search root, as the recursive
    walk meets it: its attributes, whether scrolling/focusing/clicking it
    throws, the DOM once it is active and the settle waits are over, the
    active [tabpanel] found next to its [tablist] (if any), and the
    [role="tab"] elements inside that panel. *)
#[warnings="-register-all"]
Inductive Trigger := Trig {
  tg_isButton : bool;
  tg_dataStateActive : bool;
  tg_ariaSelected : bool;
  tg_textContent : jstr;
  tg_ariaLabel : option jstr;
  tg_clickThrows : bool;
  tg_docAfter : Doc;
  tg_panel : option elem;
  tg_nested : list Trigger
}.

(** The filter of [processTabLevel]: a [BUTTON] that is not active. *)
Definition isInactiveButton (t : Trigger) : bool :=
  tg_isButton t && negb (tg_dataStateActive t) && negb (tg_ariaSelected t).

(** [(trigger.textContent || trigger.getAttribute('aria-label') || '').trim()
    || 'Sub Tab'] *)
Definition subTabNameOf (t : Trigger) : jstr :=
  let raw := if bool_decide (tg_textContent t = []) then
               match tg_ariaLabel t with Some l => l | None => [] end
             else tg_textContent t in
  let s := trim raw in
  if bool_decide (s = []) then lit "Sub Tab" else s.

(** The loop of [processTabLevel] over the triggers of one level, given
    the per-trigger body [pt]; the depth guard [level > 5] comes first. *)
Definition processTabLevel_with (pt : nat -> jstr -> elem -> Trigger -> CState -> CState)
    (level : nat) (levelPrefix : jstr) (searchRoot : elem) (ts : list Trigger) (st : CState)
    : CState :=
  if (5 <? level)%nat then st
  else fold_left (fun st k => if isInactiveButton k then pt level levelPrefix searchRoot k st
                              else st) ts st.

(** The body of the [for (const trigger of triggers)] loop: a trigger whose
    activation throws is skipped by the [catch]; otherwise its tables are
    collected and the nested panel, if found, is walked one level down. *)
Fixpoint processTrigger (nowMs : Z) (level : nat) (levelPrefix : jstr) (searchRoot : elem)
    (t : Trigger) (st : CState) {struct t} : CState :=
  match t with
  | Trig _ _ _ _ _ clickThrows docAfter panel nested =>
      let subTabName := subTabNameOf t in
      let fullTabName := if bool_decide (levelPrefix = []) then subTabName
                         else levelPrefix ++ lit " > " ++ subTabName in
      if clickThrows then st
      else
        let st1 := collectVisible fullTabName (scanForTables docAfter nowMs searchRoot) st in
        match panel with
        | Some p => processTabLevel_with (processTrigger nowMs) (S level) fullTabName p nested st1
        | None => st1
        end
  end.

(** [processTabLevel(searchRoot, levelPrefix, level)] *)
Definition processTabLevel (nowMs : Z) : nat -> jstr -> elem -> list Trigger -> CState -> CState :=
  processTabLevel_with (processTrigger nowMs).

(** The DOM situations [scanForTablesIncludingSubTabs(root)] meets: the
    initial DOM, the tab elements under the root, the active tab panels
    found after the root walk (with their tab elements), and the DOM once
    the initial tabs are restored. *)
Record TabDom := {
  initialDoc : Doc;
  root : elem;
  rootTabs : list Trigger;
  activeContents : list (elem * list Trigger);
  finalDoc : Doc;
  nowMs : Z
}.

(** [scanForTablesIncludingSubTabs(container)]. Restoring the initially
    active triggers clicks them and waits; it touches neither [collected]
    nor [seen], and is not modelled beyond the DOM it leaves ([finalDoc]). *)
Definition scanForTablesIncludingSubTabs (td : TabDom) : list DisplayedTable :=
  let st0 := {| collected := []; seen := ∅ |} in
  let st1 := collectVisible (lit "Initial Active Content")
               (scanForTables (initialDoc td) (nowMs td) (root td)) st0 in
  let st2 := processTabLevel (nowMs td) 0 [] (root td) (rootTabs td) st1 in
  let st3 := fold_left (fun st '(p, ts) =>
                          processTabLevel (nowMs td) 1 (lit "Active Tab Content") p ts st)
               (activeContents td) st2 in
  let st4 := collectVisible (lit "Final Restored State")
               (scanForTables (finalDoc td) (nowMs td) (root td)) st3 in
  collected st4.

(* ------------------------------------------------------------------ *)
(** ** Sample inputs *)

Definition dq : jstr := [c_quote].

Definition opts_csv (includeRowNumbers0 preserveFormatting0 : bool) : Options :=
  {| includeHeaders := true; preserveFormatting := preserveFormatting0;
     includeRowNumbers := includeRowNumbers0; separateSheets := false;
     includeMetadata := false |}.

Definition tableA : TableData :=
  {| td_name := lit "Table A"; headers := [lit "Name"; lit "Revenue"];
     rows := [[lit "Alice"; lit "1,200"]; [lit "Bob"; lit "800"]]; metadata := None |}.

Definition tableB : TableData :=
  {| td_name := lit "Table B"; headers := [lit "Month"; lit "Count"];
     rows := [[lit "Jan"; lit "5"]]; metadata := None |}.

Example num_toString_samples :
  num_toString 0 = lit "0" /\ num_toString 7 = lit "7" /\ num_toString 10 = lit "10"
  /\ num_toString 1024 = lit "1024".
Proof. vm_compute. auto. Qed.

Example trim_sample : trim (lit "  a b ") = lit "a b".
Proof. reflexivity. Qed.

Example escape_samples :
  escapeCSVValue (lit "800") = lit "800"
  /\ escapeCSVValue (lit "1,200") = dq ++ lit "1,200" ++ dq
  /\ escapeCSVValue (lit "a" ++ dq ++ lit "b") = dq ++ lit "a" ++ dq ++ dq ++ lit "b" ++ dq.
Proof. vm_compute. auto. Qed.

Example createCSVContent_A :
  createCSVContent tableA (opts_csv false false)
  = lit "Name,Revenue" ++ [c_nl] ++ lit "Alice," ++ dq ++ lit "1,200" ++ dq ++ [c_nl]
    ++ lit "Bob,800".
Proof. vm_compute. reflexivity. Qed.

(* ------------------------------------------------------------------ *)
(** ** CSV escaping *)

Lemma csv_quoted_body_double_quotes (v : jstr) :
  csv_quoted_body (double_quotes v ++ [c_quote]) = Some v.
Proof.
  induction v as [|c v IH]; [reflexivity|].
  cbn [double_quotes]. destruct (c =? c_quote) eqn:Hc.
  - apply Z.eqb_eq in Hc. subst c. cbn. rewrite IH. reflexivity.
  - cbn. rewrite Hc, IH. reflexivity.
Qed.

Lemma includes_double_quotes_start (v : jstr) :
  includes v c_quote = false -> forall rest, v <> c_quote :: rest.
Proof. intros H rest ->. cbn in H. discriminate. Qed.

(** C3: [escapeCSVValue] wraps the value in double quotes, doubling the
    inner ones, exactly when it contains a comma, a double quote or a line
    feed; then the RFC 4180 field parser gives the value back; any other
    value is emitted unchanged. *)
Theorem escapeCSVValue_quotes_iff_special (value : jstr) :
  (escapeCSVValue value = [c_quote] ++ double_quotes value ++ [c_quote]
   <-> (includes value c_comma || includes value c_quote || includes value c_nl) = true)
  /\ (if includes value c_comma || includes value c_quote || includes value c_nl
      then csv_parse_field (escapeCSVValue value) = Some value
      else escapeCSVValue value = value).
Proof.
  unfold escapeCSVValue.
  destruct (includes value c_comma || includes value c_quote || includes value c_nl) eqn:Hs.
  - split; [tauto|]. cbn [app csv_parse_field]. rewrite Z.eqb_refl.
    apply csv_quoted_body_double_quotes.
  - split; [|reflexivity]. split; [|discriminate]. intros Heq.
    apply orb_false_iff in Hs as [Hs _]. apply orb_false_iff in Hs as [_ Hq].
    exfalso. exact (includes_double_quotes_start value Hq _ Heq).
Qed.

(* ------------------------------------------------------------------ *)
(** ** End-to-end CSV scenario *)

Definition scenario_config (fileName0 tabName0 : jstr) (includeRowNumbers0 preserveFormatting0 : bool)
    : ExportConfig :=
  {| format := lit "csv"; fileName := fileName0;
     options := opts_csv includeRowNumbers0 preserveFormatting0;
     tables := []; tabName := tabName0 |}.

Definition scenario_lines : list jstr :=
  [lit "Table A"; lit "Name,Revenue"; lit "Alice," ++ dq ++ lit "1,200" ++ dq; lit "Bob,800";
   []; lit "Table B"; lit "Month,Count"; lit "Jan,5"].

(** C4: for Table A and Table B with [separateSheets = false],
    [includeHeaders = true] and [includeMetadata = false], [exportToCSV]
    triggers exactly one download, whose content is, line by line,
    "Table A", "Name,Revenue", Alice with the quoted "1,200", "Bob,800", a
    blank line, "Table B", "Month,Count", "Jan,5" (and the final newline). *)
Theorem exportToCSV_two_tables_scenario (fileName0 tabName0 nowStr0 : jstr)
    (includeRowNumbers0 preserveFormatting0 : bool) (w : World) :
  exportToCSV nowStr0 [tableA; tableB]
    (scenario_config fileName0 tabName0 includeRowNumbers0 preserveFormatting0) w
  = ({| els := els w; isExporting := isExporting w;
        trace := trace w ++ [DownloadCSV (join [c_nl] (scenario_lines ++ [[]]))
                                         (fileName0 ++ lit ".csv")] |}, Ok tt).
Proof. reflexivity. Qed.

(* ------------------------------------------------------------------ *)
(** ** Scroll/overflow neutraliser: restoration *)

Lemma get_el_update (e : elem) (f : ElState -> ElState) (w : World) (x : elem) :
  get_el (fst (update_el e f w)) x = if decide (x = e) then f (get_el w e) else get_el w x.
Proof.
  unfold get_el, update_el; cbn. destruct (decide (x = e)) as [->|Hne].
  - by rewrite lookup_insert_eq.
  - by rewrite lookup_insert_ne.
Qed.

Lemma get_el_insert (e : elem) (v : ElState) (m : gmap elem ElState) b t (x : elem) :
  get_el {| els := <[e := v]> m; isExporting := b; trace := t |} x
  = if decide (x = e) then v else get_el {| els := m; isExporting := b; trace := t |} x.
Proof.
  unfold get_el; cbn. destruct (decide (x = e)) as [->|Hne].
  - by rewrite lookup_insert_eq.
  - by rewrite lookup_insert_ne.
Qed.

Lemma get_el_mk (w : World) b t (x : elem) :
  get_el {| els := els w; isExporting := b; trace := t |} x = get_el w x.
Proof. reflexivity. Qed.

Ltac simpl_el :=
  repeat (first [ rewrite get_el_insert | rewrite get_el_mk
                | rewrite decide_True by reflexivity | rewrite decide_False by congruence ]);
  cbn [st_width st_maxWidth st_overflow scrollLeft].

Lemma or_empty_Some (s : jstr) : or_empty (Some s) = s.
Proof. unfold or_empty. case_bool_decide; congruence. Qed.

Section Neutraliser.
(** The table, its container and the world before extraction. *)
Variable table : elem.
Variable container : option elem.
Variable w0 : World.

(** What the [try] block may have changed: the width and max-width of
    the table, the overflow and scroll offset of the container. *)
Definition Frame (w : World) : Prop :=
  forall x,
    (container <> Some x ->
       st_overflow (get_el w x) = st_overflow (get_el w0 x)
       /\ scrollLeft (get_el w x) = scrollLeft (get_el w0 x))
    /\ (x <> table ->
          st_width (get_el w x) = st_width (get_el w0 x)
          /\ st_maxWidth (get_el w x) = st_maxWidth (get_el w0 x)).

(** A computation that keeps [Frame], whether it returns or throws. *)
Definition Pres {A} (m : M A) : Prop :=
  forall w, Frame w -> Frame (fst (m w)).

Lemma Frame_init : Frame w0.
Proof. intros x. tauto. Qed.

Lemma Pres_ret {A} (a : A) : Pres (ret a).
Proof. intros w H. exact H. Qed.

Lemma Pres_throw {A} (e : exn) : Pres (A:=A) (throw e).
Proof. intros w H. exact H. Qed.

Lemma Pres_checkpoint raise i : Pres (checkpoint raise i).
Proof. unfold checkpoint. destruct (raise i); [apply Pres_throw | apply Pres_ret]. Qed.

Lemma Pres_bind {A B} (m : M A) (k : A -> M B) :
  Pres m -> (forall a, Pres (k a)) -> Pres (bindM m k).
Proof.
  intros Hm Hk w H. unfold bindM.
  specialize (Hm w H). destruct (m w) as [w' [a|e]]; cbn in *; [apply Hk|]; exact Hm.
Qed.

Lemma Pres_set_width v : Pres (set_width table v).
Proof.
  intros w H x. unfold set_width. rewrite !get_el_update.
  destruct (decide (x = table)) as [->|Hne]; cbn; [|apply H].
  split; [apply H|]. congruence.
Qed.

Lemma Pres_set_maxWidth v : Pres (set_maxWidth table v).
Proof.
  intros w H x. unfold set_maxWidth. rewrite !get_el_update.
  destruct (decide (x = table)) as [->|Hne]; cbn; [|apply H].
  split; [apply H|]. congruence.
Qed.

Lemma Pres_set_overflow c v : container = Some c -> Pres (set_overflow c v).
Proof.
  intros Hc w H x. unfold set_overflow. rewrite !get_el_update.
  destruct (decide (x = c)) as [->|Hne]; cbn; [|apply H].
  split; [congruence|]. apply H.
Qed.

Lemma Pres_set_scrollLeft c v : container = Some c -> Pres (set_scrollLeft c v).
Proof.
  intros Hc w H x. unfold set_scrollLeft. rewrite !get_el_update.
  destruct (decide (x = c)) as [->|Hne]; cbn; [|apply H].
  split; [congruence|]. apply H.
Qed.
End Neutraliser.

Lemma ElState_eq (a b : ElState) :
  st_width a = st_width b -> st_maxWidth a = st_maxWidth b ->
  st_overflow a = st_overflow b -> scrollLeft a = scrollLeft b -> a = b.
Proof. destruct a, b; cbn; intros; subst; reflexivity. Qed.

(** Every exit of the [try] block of [extractTableData] leaves a world in
    which only the four neutralised values may differ. *)
Lemma extract_try_Pres dom raise nowStr table options tc w0 :
  Pres table tc w0 (extractTableData_try dom raise nowStr table options tc).
Proof.
  unfold extractTableData_try.
  apply Pres_bind; [apply Pres_checkpoint|intros _].
  apply Pres_bind.
  { destruct tc as [c|] eqn:Hc; [|apply Pres_ret].
    apply Pres_bind; [by apply Pres_set_overflow|intros _].
    apply Pres_bind; [apply Pres_checkpoint|intros _].
    by apply Pres_set_scrollLeft. }
  intros _.
  apply Pres_bind; [apply Pres_checkpoint|intros _].
  apply Pres_bind; [apply Pres_set_width|intros _].
  apply Pres_bind; [apply Pres_checkpoint|intros _].
  apply Pres_bind; [apply Pres_set_maxWidth|intros _].
  apply Pres_bind; [apply Pres_checkpoint|intros _].
  apply Pres_bind; [apply Pres_checkpoint|intros _].
  apply Pres_ret.
Qed.

(** The element store after [extractTableData] equals the one before, on
    every element, whether the extraction returned or threw. *)
Lemma extractTableData_store_unchanged dom raise nowStr table options w :
  forall x, get_el (fst (extractTableData dom raise nowStr table options w)) x = get_el w x.
Proof.
  intros x. unfold extractTableData, bindM, get at 1. cbv beta iota zeta.
  unfold try_finally at 1.
  pose proof (extract_try_Pres dom raise nowStr table options (tableContainerOf dom table) w w
                (Frame_init _ _ _)) as HF.
  destruct (extractTableData_try dom raise nowStr table options (tableContainerOf dom table) w)
    as [w1 r].
  cbn [fst] in HF. specialize (HF x).
  unfold extractTableData_finally, bindM, set_width, set_maxWidth, set_overflow,
    set_scrollLeft, ret.
  destruct (tableContainerOf dom table) as [c|] eqn:Hc; cbn [update_el fst snd option_map].
  - rewrite or_empty_Some.
    destruct (decide (x = c)) as [->|Hxc]; destruct (decide (c = table)) as [->|Hct];
      [| |destruct (decide (x = table)) as [->|Hxt]..]; simpl_el;
      apply ElState_eq; cbn; try reflexivity;
      apply HF; congruence.
  - simpl_el. destruct (decide (x = table)) as [->|Hxt]; simpl_el;
      apply ElState_eq; cbn; try reflexivity; apply HF; congruence.
Qed.

(** C1: whatever the table, the options and the point at which the
    runtime may raise inside the [try] block, [extractTableData] leaves the
    table's inline width and max-width, and its container's overflow style
    and scroll offset, as they were before the call, whether it returned
    or threw. *)
Theorem extractTableData_restores_ui dom raise nowStr table options w :
  let w' := fst (extractTableData dom raise nowStr table options w) in
  st_width (get_el w' table) = st_width (get_el w table)
  /\ st_maxWidth (get_el w' table) = st_maxWidth (get_el w table)
  /\ match tableContainerOf dom table with
     | Some c => st_overflow (get_el w' c) = st_overflow (get_el w c)
                 /\ scrollLeft (get_el w' c) = scrollLeft (get_el w c)
     | None => True
     end.
Proof.
  cbv zeta. rewrite !extractTableData_store_unchanged.
  destruct (tableContainerOf dom table); rewrite ?extractTableData_store_unchanged; auto.
Qed.

(* ------------------------------------------------------------------ *)
(** ** Row extraction *)

(** Without raised errors, [extractTableData] returns the value computed
    from the rows. *)
Lemma extractTableData_result dom nowStr table options w :
  snd (extractTableData dom noRaise nowStr table options w)
  = Ok (tableDataOf options nowStr (rows_of dom table)).
Proof.
  unfold extractTableData, extractTableData_try, extractTableData_finally, try_finally,
    bindM, get, checkpoint, noRaise.
  destruct (tableContainerOf dom table); reflexivity.
Qed.

(** The data rows [rs], the first one numbered [n] when row numbers are on. *)
Fixpoint numbered_rows (options : Options) (n : nat) (rs : list Row) : list (list jstr) :=
  match rs with
  | [] => []
  | r :: rs' =>
      (if includeRowNumbers options then num_toString (Z.of_nat n) :: map (cellValue options) r
       else map (cellValue options) r)
      :: numbered_rows options (S n) rs'
  end.

Lemma extract_rows_data options rowIndex rs hdrs extractedData :
  0 < rowIndex ->
  extract_rows options rowIndex rs hdrs extractedData
  = (hdrs, extractedData ++ numbered_rows options (S (length extractedData)) rs).
Proof.
  revert rowIndex extractedData.
  induction rs as [|r rs IH]; intros rowIndex ed Hpos; cbn [extract_rows numbered_rows].
  - by rewrite app_nil_r.
  - replace (rowIndex =? 0) with false by (symmetry; apply Z.eqb_neq; lia). cbn [andb].
    rewrite IH by lia. rewrite <- app_assoc. cbn [app].
    rewrite length_app. cbn [length].
    replace (length ed + 1)%nat with (S (length ed)) by lia.
    replace (Z.of_nat (length ed) + 1) with (Z.of_nat (S (length ed))) by lia.
    reflexivity.
Qed.

(** Whether [extractTableData] takes the first row as the header row. *)
Definition first_row_is_header (options : Options) (rs : list Row) : bool :=
  match rs with
  | r :: _ => existsb cell_th r || includeHeaders options
  | [] => false
  end.

Lemma extract_rows_all options rs :
  extract_rows options 0 rs [] []
  = match rs with
    | [] => ([], [])
    | r :: rs' =>
        if existsb cell_th r || includeHeaders options
        then (map (cellValue options) r, numbered_rows options 1 rs')
        else ([], numbered_rows options 1 rs)
    end.
Proof.
  destruct rs as [|r rs]; [reflexivity|]. cbn [extract_rows].
  destruct (existsb cell_th r || includeHeaders options); cbn [andb Z.eqb].
  - rewrite extract_rows_data by lia. reflexivity.
  - rewrite extract_rows_data by lia. reflexivity.
Qed.

Lemma nth_error_numbered_rows options n rs i :
  includeRowNumbers options = true ->
  nth_error (numbered_rows options n rs) i
  = option_map (fun r => num_toString (Z.of_nat (n + i)) :: map (cellValue options) r)
               (nth_error rs i).
Proof.
  intros Hrn. revert n i. induction rs as [|r rs IH]; intros n [|i]; cbn; try reflexivity.
  - rewrite Hrn. by rewrite Nat.add_0_r.
  - rewrite IH. by replace (S n + i)%nat with (n + S i)%nat by lia.
Qed.

Lemma length_numbered_rows options n rs : length (numbered_rows options n rs) = length rs.
Proof. revert n. induction rs; intros n; cbn; auto. Qed.

(** The header row [extractTableData] finds in the rows [rs], if any. *)
Definition header_cells (options : Options) (rs : list Row) : option (list jstr) :=
  match rs with
  | r :: _ => if existsb cell_th r || includeHeaders options
              then Some (map (cellValue options) r) else None
  | [] => None
  end.

(** The rows [extractTableData] treats as data rows. *)
Definition data_rows (options : Options) (rs : list Row) : list Row :=
  match rs with
  | r :: rs' => if existsb cell_th r || includeHeaders options then rs' else rs
  | [] => []
  end.

Lemma tableDataOf_parts options nowStr rs :
  headers (tableDataOf options nowStr rs)
  = (match header_cells options rs with
     | Some h => if includeRowNumbers options && negb (bool_decide (h = []))
                 then lit "#" :: h else h
     | None => []
     end)
  /\ rows (tableDataOf options nowStr rs) = numbered_rows options 1 (data_rows options rs).
Proof.
  unfold tableDataOf, header_cells, data_rows. rewrite extract_rows_all.
  destruct rs as [|r rs].
  { split; [|reflexivity]. cbn. destruct (includeRowNumbers options); reflexivity. }
  destruct (existsb cell_th r || includeHeaders options); cbn.
  - auto.
  - destruct (includeRowNumbers options); auto.
Qed.

(** C7: with [includeRowNumbers] on, the headers are [#] followed by the
    header row's values when that row has cells, and empty when there is
    no header row; the data rows are all kept, in order, and the i-th one
    (from 1) starts with the numeral i followed by its cell values. *)
Theorem extractTableData_row_numbers dom nowStr table options w
    (Hrn : includeRowNumbers options = true) :
  exists td,
    snd (extractTableData dom noRaise nowStr table options w) = Ok td
    /\ headers td = match header_cells options (rows_of dom table) with
                    | Some h => if bool_decide (h = []) then [] else lit "#" :: h
                    | None => []
                    end
    /\ length (rows td) = length (data_rows options (rows_of dom table))
    /\ (forall i r, nth_error (data_rows options (rows_of dom table)) i = Some r ->
          nth_error (rows td) i
          = Some (num_toString (Z.of_nat (S i)) :: map (cellValue options) r)).
Proof.
  exists (tableDataOf options nowStr (rows_of dom table)).
  rewrite extractTableData_result.
  destruct (tableDataOf_parts options nowStr (rows_of dom table)) as [Hh Hr].
  split; [reflexivity|]. split; [|split].
  - rewrite Hh, Hrn. destruct (header_cells options (rows_of dom table)); [|reflexivity].
    cbn. by case_bool_decide.
  - by rewrite Hr, length_numbered_rows.
  - intros i r Hi. rewrite Hr, nth_error_numbered_rows, Hi by exact Hrn. reflexivity.
Qed.

(* ------------------------------------------------------------------ *)
(** ** Concrete DOMs *)

Definition emptyDoc : Doc :=
  {| tables_under := fun _ => [];
     caption_of := fun _ => None;
     previous_siblings := fun _ => [];
     rows_of := fun _ => [];
     has_offsetParent := fun _ => true;
     computed_display := fun _ => lit "table";
     computed_visibility := fun _ => lit "visible";
     closest_scroll := fun _ => None;
     parentElement := fun _ => None |}.

Definition td_cell (s : jstr) : Cell := {| cell_th := false; textContent := s; innerHTML := s |}.
Definition th_cell (s : jstr) : Cell := {| cell_th := true; textContent := s; innerHTML := s |}.

Definition world0 : World := {| els := ∅; isExporting := false; trace := [] |}.

Definition opts_with (includeHeaders0 preserveFormatting0 includeRowNumbers0 : bool) : Options :=
  {| includeHeaders := includeHeaders0; preserveFormatting := preserveFormatting0;
     includeRowNumbers := includeRowNumbers0; separateSheets := false;
     includeMetadata := false |}.

(** Table 1: a header row [Name | Revenue] and two data rows. *)
Definition doc_sales : Doc :=
  {| tables_under := fun _ => [1%nat];
     caption_of := fun _ => None;
     previous_siblings := fun _ => [];
     rows_of := fun t => if (t =? 1)%nat then
                           [[th_cell (lit "Name"); th_cell (lit "Revenue")];
                            [td_cell (lit "Alice"); td_cell (lit "1,200")];
                            [td_cell (lit "Bob"); td_cell (lit "800")]]
                         else [];
     has_offsetParent := fun _ => true;
     computed_display := fun _ => lit "table";
     computed_visibility := fun _ => lit "visible";
     closest_scroll := fun _ => Some 2%nat;
     parentElement := fun _ => None |}.

Example extract_sales_numbered :
  snd (extractTableData doc_sales noRaise [] 1 (opts_with false false true) world0)
  = Ok {| td_name := []; headers := [lit "#"; lit "Name"; lit "Revenue"];
          rows := [[lit "1"; lit "Alice"; lit "1,200"]; [lit "2"; lit "Bob"; lit "800"]];
          metadata := None |}.
Proof. vm_compute. reflexivity. Qed.

(** C7 at the sample table. *)
Lemma extractTableData_row_numbers_witness :
  includeRowNumbers (opts_with false false true) = true
  /\ exists td,
    snd (extractTableData doc_sales noRaise [] 1 (opts_with false false true) world0) = Ok td
    /\ headers td = match header_cells (opts_with false false true) (rows_of doc_sales 1) with
                    | Some h => if bool_decide (h = []) then [] else lit "#" :: h
                    | None => []
                    end
    /\ length (rows td) = length (data_rows (opts_with false false true) (rows_of doc_sales 1))
    /\ (forall i r, nth_error (data_rows (opts_with false false true) (rows_of doc_sales 1)) i
                    = Some r ->
          nth_error (rows td) i
          = Some (num_toString (Z.of_nat (S i)) :: map (cellValue (opts_with false false true)) r)).
Proof.
  split; [reflexivity|].
  apply (extractTableData_row_numbers doc_sales [] 1 (opts_with false false true) world0).
  reflexivity.
Defined.

(** An environment over the DOM [d] in which nothing raises. *)
Definition env_of (d : Doc) : Env :=
  {| doc := d; raises := fun _ => noRaise; nowStr := []; pdfLib := fun _ _ => None |}.

(** [s] contains [sub] as a substring. *)
Fixpoint contains_sub (s sub : jstr) : bool :=
  startsWith s sub || match s with [] => false | _ :: s' => contains_sub s' sub end.

(** Table 1: a [th] row [Total] over a data row [Total]. *)
Definition doc_total : Doc :=
  {| tables_under := fun _ => [1%nat];
     caption_of := fun _ => None;
     previous_siblings := fun _ => [];
     rows_of := fun t => if (t =? 1)%nat then [[th_cell (lit "Total")]; [td_cell (lit "Total")]]
                         else [];
     has_offsetParent := fun _ => true;
     computed_display := fun _ => lit "table";
     computed_visibility := fun _ => lit "visible";
     closest_scroll := fun _ => None;
     parentElement := fun _ => Some 2%nat |}.

Definition config_total : ExportConfig :=
  {| format := lit "csv"; fileName := lit "report"; options := opts_with false false false;
     tables := [{| dt_id := lit "t1"; dt_name := lit "Totals"; element := Some 1%nat;
                   rowCount := 2; columnCount := 1; isVisible := true |}];
     tabName := lit "Sales" |}.

(* ------------------------------------------------------------------ *)
(** ** Header row with [includeHeaders] off *)

(** C10, as stated, fails: the first row of table 1 holds a [th] and
    [includeHeaders] is off, yet the value [Total] of that row occurs in
    the CSV document, because the data row below it has the same text. *)
Lemma header_values_absent_counterexample :
  existsb cell_th (hd [] (rows_of doc_total 1)) = true
  /\ includeHeaders (options config_total) = false
  /\ exists content file v,
       In (DownloadCSV content file) (trace (fst (exportDisplayedData (env_of doc_total)
                                                     config_total world0)))
       /\ In v (map (cellValue (options config_total)) (hd [] (rows_of doc_total 1)))
       /\ contains_sub content v = true.
Proof.
  split; [reflexivity|]. split; [reflexivity|].
  exists (lit "Totals" ++ [c_nl] ++ lit "Total" ++ [c_nl]), (lit "report.csv"), (lit "Total").
  vm_compute. split; [auto 10|]. split; [left; reflexivity|reflexivity].
Qed.

(** C10 (amended): when the first row holds a [th] cell and
    [includeHeaders] is off, [extractTableData] takes that row as the
    headers, not as a data row, and [createCSVContent] emits no line for
    it: the CSV content is exactly the lines of the remaining rows (each
    numbered when row numbers are on). *)
Theorem extract_csv_skips_th_header dom nowStr table options w (r : Row) (rest : list Row)
    (Hrows : rows_of dom table = r :: rest) (Hth : existsb cell_th r = true)
    (Hih : includeHeaders options = false) :
  exists td,
    snd (extractTableData dom noRaise nowStr table options w) = Ok td
    /\ headers td = (if includeRowNumbers options
                        && negb (bool_decide (map (cellValue options) r = []))
                     then lit "#" :: map (cellValue options) r
                     else map (cellValue options) r)
    /\ rows td = numbered_rows options 1 rest
    /\ createCSVContent td options = join [c_nl] (map csv_line (numbered_rows options 1 rest)).
Proof.
  exists (tableDataOf options nowStr (rows_of dom table)).
  rewrite extractTableData_result.
  destruct (tableDataOf_parts options nowStr (rows_of dom table)) as [Hh Hr].
  unfold header_cells, data_rows in Hh, Hr. rewrite Hrows in Hh, Hr |- *. rewrite Hth in Hh, Hr. cbn [orb] in Hh, Hr.
  split; [reflexivity|]. split; [exact Hh|]. split; [exact Hr|].
  unfold createCSVContent. rewrite Hih, Hr. reflexivity.
Qed.

Lemma extract_csv_skips_th_header_witness :
  rows_of doc_total 1 = [th_cell (lit "Total")] :: [[td_cell (lit "Total")]]
  /\ existsb cell_th [th_cell (lit "Total")] = true
  /\ includeHeaders (opts_with false false false) = false
  /\ exists td,
    snd (extractTableData doc_total noRaise [] 1 (opts_with false false false) world0) = Ok td
    /\ headers td = (if includeRowNumbers (opts_with false false false)
                        && negb (bool_decide (map (cellValue (opts_with false false false))
                                                  [th_cell (lit "Total")] = []))
                     then lit "#" :: map (cellValue (opts_with false false false)) [th_cell (lit "Total")]
                     else map (cellValue (opts_with false false false)) [th_cell (lit "Total")])
    /\ rows td = numbered_rows (opts_with false false false) 1 [[td_cell (lit "Total")]]
    /\ createCSVContent td (opts_with false false false)
       = join [c_nl] (map csv_line (numbered_rows (opts_with false false false) 1
                                      [[td_cell (lit "Total")]])).
Proof.
  split; [reflexivity|]. split; [reflexivity|]. split; [reflexivity|].
  apply (extract_csv_skips_th_header doc_total [] 1 (opts_with false false false) world0
           [th_cell (lit "Total")] [[td_cell (lit "Total")]]); reflexivity.
Defined.

(* ------------------------------------------------------------------ *)
(** ** Currency-symbol recovery *)

(** A cell whose markup is [<i title="\$"></i>100]: the text is [100],
    the markup holds a backslash before the dollar sign. *)
Definition cell_escaped_dollar : Cell :=
  {| cell_th := false;
     textContent := lit "100";
     innerHTML := lit "<i title=" ++ dq ++ [c_backslash; c_dollar] ++ dq ++ lit "></i>100" |}.

(** C8 at [cell_escaped_dollar] with [preserveFormatting] on: the markup
    contains a dollar sign and the text none, but the value is a
    backslash followed by [100], not the dollar sign followed by [100]. *)
Theorem cellValue_prepends_backslash :
  cellValue (opts_with true true false) cell_escaped_dollar = [c_backslash] ++ lit "100"
  /\ cellValue (opts_with true true false) cell_escaped_dollar <> [c_dollar] ++ lit "100".
Proof. vm_compute. split; [reflexivity|discriminate]. Qed.

(* ------------------------------------------------------------------ *)
(** ** Export orchestrator *)

Lemma selected_elements_all_null (ts : list DisplayedTable) :
  Forall (fun t => element t = None) ts -> selected_elements ts = [].
Proof.
  induction 1 as [|t ts Ht _ IH]; [reflexivity|].
  unfold selected_elements in *. cbn. rewrite Ht. exact IH.
Qed.

(** C9: [exportDisplayedData] sets [isExporting] to true, runs its [try]
    block, and on every outcome sets [isExporting] back to false at the
    very end; a failure of the [try] block is logged and then rethrown
    unchanged, a success returns normally. *)
Theorem exportDisplayedData_flag_and_rethrow env config w :
  let w1 := {| els := els w; isExporting := true; trace := trace w ++ [SetIsExporting true] |} in
  exportDisplayedData env config w
  = match exportBody env config w1 with
    | (w2, Ok u) =>
        ({| els := els w2; isExporting := false; trace := trace w2 ++ [SetIsExporting false] |},
         Ok u)
    | (w2, Throw e) =>
        ({| els := els w2; isExporting := false;
            trace := trace w2 ++ [ConsoleError e; SetIsExporting false] |}, Throw e)
    end.
Proof.
  cbv zeta. unfold exportDisplayedData, bindM at 1, setIsExporting at 1.
  cbv beta iota. unfold try_finally, try_catch.
  destruct (exportBody env config _) as [w2 [u|e]].
  - reflexivity.
  - unfold bindM, emit, throw, setIsExporting. cbn. by rewrite <- app_assoc.
Qed.

(** C5: when every selected table has a null element, the export rejects
    with "No table data to export"; the only effects are the flag set,
    the error log and the flag reset: no CSV download, no PDF save. *)
Theorem exportDisplayedData_empty_rejects env config w
    (Hnull : Forall (fun t => element t = None) (tables config)) :
  exportDisplayedData env config w
  = ({| els := els w; isExporting := false;
        trace := trace w ++ [SetIsExporting true; ConsoleError (lit "No table data to export");
                             SetIsExporting false] |},
     Throw (lit "No table data to export")).
Proof.
  unfold exportDisplayedData, exportBody. rewrite (selected_elements_all_null _ Hnull).
  unfold bindM, setIsExporting, try_finally, try_catch, emit, throw, mapM, ret. cbn.
  by rewrite <- !app_assoc.
Qed.

Definition config_null : ExportConfig :=
  {| format := lit "pdf"; fileName := lit "report"; options := opts_with true false false;
     tables := [{| dt_id := lit "t1"; dt_name := lit "Gone"; element := None;
                   rowCount := 3; columnCount := 2; isVisible := true |}];
     tabName := lit "Sales" |}.

Lemma exportDisplayedData_empty_rejects_witness :
  Forall (fun t => element t = None) (tables config_null)
  /\ exportDisplayedData (env_of emptyDoc) config_null world0
     = ({| els := els world0; isExporting := false;
           trace := trace world0 ++ [SetIsExporting true;
                                     ConsoleError (lit "No table data to export");
                                     SetIsExporting false] |},
        Throw (lit "No table data to export")).
Proof.
  assert (H : Forall (fun t => element t = None) (tables config_null))
    by (repeat constructor).
  split; [exact H|].
  exact (exportDisplayedData_empty_rejects (env_of emptyDoc) config_null world0 H).
Defined.

(* ------------------------------------------------------------------ *)
(** ** Table naming *)

(** The chain of C6 as the claim words it: caption text if non-empty;
    else the first heading among the five preceding siblings; else the
    nearest short non-empty text among them; else "Table N". *)
Definition short_text (s : Sibling) : option jstr :=
  let t := trim (sib_text s) in
  if negb (bool_decide (t = [])) && (Z.of_nat (length t) <? 100) then Some t else None.

Definition claimed_name (dom : Doc) (index : Z) (table : elem) : jstr :=
  let fallback := lit "Table " ++ num_toString (index + 1) in
  let sibs := take 5 (previous_siblings dom table) in
  match caption_of dom table with
  | Some cap => if bool_decide (trim cap = []) then fallback else trim cap
  | None =>
      match find (fun s => is_heading (tagName s)) sibs with
      | Some h => trim (sib_text h)
      | None => match omap short_text sibs with
                | t :: _ => t
                | [] => fallback
                end
      end
  end.

(** Two siblings [<p>A</p><p>B</p>] right before the table, no caption. *)
Definition doc_two_notes : Doc :=
  {| tables_under := fun _ => [1%nat];
     caption_of := fun _ => None;
     previous_siblings := fun _ => [{| tagName := lit "P"; sib_text := lit "B" |};
                                    {| tagName := lit "P"; sib_text := lit "A" |}];
     rows_of := fun _ => [];
     has_offsetParent := fun _ => true;
     computed_display := fun _ => lit "table";
     computed_visibility := fun _ => lit "visible";
     closest_scroll := fun _ => None;
     parentElement := fun _ => None |}.

(** C6, as stated, fails: with no caption and no heading, the name is the
    snippet farthest from the table ([A]), not the nearest one ([B]). *)
Lemma tableName_nearest_snippet_counterexample :
  tableNameOf doc_two_notes 0 1 = lit "A"
  /\ claimed_name doc_two_notes 0 1 = lit "B"
  /\ tableNameOf doc_two_notes 0 1 <> claimed_name doc_two_notes 0 1.
Proof. vm_compute. split; [reflexivity|]. split; [reflexivity|discriminate]. Qed.

(** The siblings the backward walk passes before it meets a heading. *)
Fixpoint before_heading (sibs : list Sibling) : list Sibling :=
  match sibs with
  | [] => []
  | s :: rest => if is_heading (tagName s) then [] else s :: before_heading rest
  end.

(** C6 as amended: a caption, when present, decides alone (its text, or
    "Table N" when empty); else the nearest heading among the five
    preceding siblings gives its text when non-empty; otherwise the
    short text snippets met before that heading (or among all five
    siblings when there is none) give the one farthest from the table,
    and "Table N" when there is none. *)
Definition amended_name (dom : Doc) (index : Z) (table : elem) : jstr :=
  let fallback := lit "Table " ++ num_toString (index + 1) in
  let sibs := take 5 (previous_siblings dom table) in
  let snippet := default fallback (last (omap short_text (before_heading sibs))) in
  match caption_of dom table with
  | Some cap => if bool_decide (trim cap = []) then fallback else trim cap
  | None =>
      match find (fun s => is_heading (tagName s)) sibs with
      | Some h => if bool_decide (trim (sib_text h) = []) then snippet else trim (sib_text h)
      | None => snippet
      end
  end.

Lemma startsWith_app (p x : jstr) : startsWith (p ++ x) p = true.
Proof. induction p as [|c p IH]; [reflexivity|]. cbn. by rewrite Z.eqb_refl. Qed.

Lemma omap_cons_eq {A B} (f : A -> option B) (x : A) (l : list A) :
  omap f (x :: l) = match f x with Some y => y :: omap f l | None => omap f l end.
Proof. reflexivity. Qed.

Lemma walk_siblings_spec (n : nat) sibs tableName previousElements :
  (n <= 5)%nat ->
  walk_siblings (5 - Z.of_nat n) sibs tableName previousElements
  = ((match find (fun s => is_heading (tagName s)) (take n sibs) with
      | Some h => if bool_decide (trim (sib_text h) = []) then tableName else trim (sib_text h)
      | None => tableName
      end),
     previousElements ++ omap short_text (before_heading (take n sibs))).
Proof.
  revert n previousElements.
  induction sibs as [|s rest IH]; intros n pe Hn.
  - cbn. rewrite take_nil. cbn. by rewrite app_nil_r.
  - destruct n as [|n'].
    + cbn [walk_siblings]. replace (5 - Z.of_nat 0 <? 5) with false by reflexivity.
      cbn. by rewrite app_nil_r.
    + cbn [walk_siblings]. replace (5 - Z.of_nat (S n') <? 5) with true
        by (symmetry; apply Z.ltb_lt; lia).
      cbn [take find before_heading].
      destruct (is_heading (tagName s)).
      * cbn. by rewrite app_nil_r.
      * replace (5 - Z.of_nat (S n') + 1) with (5 - Z.of_nat n') by lia.
        rewrite IH by lia. f_equal. rewrite omap_cons_eq. unfold short_text at 2. cbv zeta.
        destruct (negb (bool_decide (trim (sib_text s) = []))
                  && (Z.of_nat (length (trim (sib_text s))) <? 100)).
        -- by rewrite <- app_assoc.
        -- reflexivity.
Qed.

(** C6 (amended), for headings whose text does not start with "Table ". *)
Theorem tableNameOf_amended_chain dom index table
    (Hheading : match find (fun s => is_heading (tagName s)) (take 5 (previous_siblings dom table))
                with
                | Some h => startsWith (trim (sib_text h)) (lit "Table ") = false
                | None => True
                end) :
  tableNameOf dom index table = amended_name dom index table.
Proof.
  unfold tableNameOf, amended_name.
  destruct (caption_of dom table) as [cap|]; [reflexivity|].
  pose proof (walk_siblings_spec 5 (previous_siblings dom table)
                (lit "Table " ++ num_toString (index + 1)) [] ltac:(lia)) as Hw.
  change (5 - Z.of_nat 5) with 0 in Hw. rewrite Hw. clear Hw. cbn [app].
  set (fallback := lit "Table " ++ num_toString (index + 1)).
  assert (Hfb : startsWith fallback (lit "Table ") = true) by apply startsWith_app.
  set (sn := omap short_text (before_heading (take 5 (previous_siblings dom table)))).
  destruct (find (fun s => is_heading (tagName s)) (take 5 (previous_siblings dom table)))
    as [h|].
  - case_bool_decide.
    + rewrite Hfb. destruct sn as [|t sn']; reflexivity.
    + rewrite Hheading. reflexivity.
  - rewrite Hfb. destruct sn as [|t sn']; reflexivity.
Qed.

(** The spec's example: [<h2>Revenue</h2>] right before a table with no
    caption. *)
Definition doc_revenue : Doc :=
  {| tables_under := fun _ => [1%nat];
     caption_of := fun _ => None;
     previous_siblings := fun _ => [{| tagName := lit "H2"; sib_text := lit "Revenue" |}];
     rows_of := fun _ => [];
     has_offsetParent := fun _ => true;
     computed_display := fun _ => lit "table";
     computed_visibility := fun _ => lit "visible";
     closest_scroll := fun _ => None;
     parentElement := fun _ => None |}.

Lemma tableNameOf_amended_chain_witness :
  match find (fun s => is_heading (tagName s)) (take 5 (previous_siblings doc_revenue 1)) with
  | Some h => startsWith (trim (sib_text h)) (lit "Table ") = false
  | None => True
  end
  /\ tableNameOf doc_revenue 0 1 = amended_name doc_revenue 0 1
  /\ amended_name doc_revenue 0 1 = lit "Revenue".
Proof.
  assert (H : match find (fun s => is_heading (tagName s)) (take 5 (previous_siblings doc_revenue 1))
              with
              | Some h => startsWith (trim (sib_text h)) (lit "Table ") = false
              | None => True
              end) by reflexivity.
  split; [exact H|]. split; [exact (tableNameOf_amended_chain doc_revenue 0 1 H)|].
  vm_compute. reflexivity.
Defined.

(* ------------------------------------------------------------------ *)
(** ** Tab-aware collector: deduplication *)

Section TriggerInd.
Variable P : Trigger -> Prop.
Hypothesis HTrig : forall b a s txt lab th d p nested,
  Forall P nested -> P (Trig b a s txt lab th d p nested).

Fixpoint Trigger_ind' (t : Trigger) : P t :=
  match t with
  | Trig b a s txt lab th d p nested =>
      HTrig b a s txt lab th d p nested
        ((fix go (ks : list Trigger) : Forall P ks :=
            match ks with
            | [] => List.Forall_nil P
            | k :: ks' => @List.Forall_cons _ P k ks' (Trigger_ind' k) (go ks')
            end) nested)
  end.
End TriggerInd.

(** The [collectVisible] calls a walk performs: prefix and tables found,
    in order. *)
Definition level_passes_with
    (pt : nat -> jstr -> elem -> Trigger -> list (jstr * list DisplayedTable))
    (level : nat) (levelPrefix : jstr) (searchRoot : elem) (ts : list Trigger)
    : list (jstr * list DisplayedTable) :=
  if (5 <? level)%nat then []
  else flat_map (fun k => if isInactiveButton k then pt level levelPrefix searchRoot k else []) ts.

Fixpoint trigger_passes (nowMs : Z) (level : nat) (levelPrefix : jstr) (searchRoot : elem)
    (t : Trigger) {struct t} : list (jstr * list DisplayedTable) :=
  match t with
  | Trig _ _ _ _ _ clickThrows docAfter panel nested =>
      let subTabName := subTabNameOf t in
      let fullTabName := if bool_decide (levelPrefix = []) then subTabName
                         else levelPrefix ++ lit " > " ++ subTabName in
      if clickThrows then []
      else (fullTabName, scanForTables docAfter nowMs searchRoot)
           :: match panel with
              | Some p => level_passes_with (trigger_passes nowMs) (S level) fullTabName p nested
              | None => []
              end
  end.

Definition run_passes (ps : list (jstr * list DisplayedTable)) (st : CState) : CState :=
  fold_left (fun st '(prefix, found) => collectVisible prefix found st) ps st.

Lemma run_passes_app ps1 ps2 st :
  run_passes (ps1 ++ ps2) st = run_passes ps2 (run_passes ps1 st).
Proof. unfold run_passes. by rewrite fold_left_app. Qed.

Lemma processTrigger_passes nowMs t :
  forall level levelPrefix searchRoot st,
    processTrigger nowMs level levelPrefix searchRoot t st
    = run_passes (trigger_passes nowMs level levelPrefix searchRoot t) st.
Proof.
  induction t as [b a s txt lab th d p nested IHn] using Trigger_ind'.
  intros level levelPrefix searchRoot st. cbn [processTrigger trigger_passes].
  destruct th; [reflexivity|].
  destruct p as [p|]; [|reflexivity].
  cbn [run_passes fold_left]. fold (run_passes).
  unfold processTabLevel_with, level_passes_with.
  destruct (5 <? S level)%nat; [reflexivity|].
  match goal with
  | |- context [collectVisible ?x ?y st] => generalize (collectVisible x y st) as st1
  end.
  induction IHn as [|k ks Hk _ IHks]; intros st1; [reflexivity|].
  cbn [fold_left flat_map]. rewrite run_passes_app, <- IHks.
  destruct (isInactiveButton k); [by rewrite Hk|reflexivity].
Qed.

Lemma processTabLevel_passes nowMs level levelPrefix searchRoot ts st :
  processTabLevel nowMs level levelPrefix searchRoot ts st
  = run_passes (level_passes_with (trigger_passes nowMs) level levelPrefix searchRoot ts) st.
Proof.
  unfold processTabLevel, processTabLevel_with, level_passes_with.
  destruct (5 <? level)%nat; [reflexivity|].
  revert st. induction ts as [|k ks IH]; intros st; [reflexivity|].
  cbn [fold_left flat_map]. rewrite run_passes_app, <- IH.
  destruct (isInactiveButton k); [by rewrite processTrigger_passes|reflexivity].
Qed.

(** Every [collectVisible] call of one run, in order. *)
Definition all_passes (td : TabDom) : list (jstr * list DisplayedTable) :=
  [(lit "Initial Active Content", scanForTables (initialDoc td) (nowMs td) (root td))]
  ++ level_passes_with (trigger_passes (nowMs td)) 0 [] (root td) (rootTabs td)
  ++ flat_map (fun '(p, ts) => level_passes_with (trigger_passes (nowMs td)) 1
                                 (lit "Active Tab Content") p ts) (activeContents td)
  ++ [(lit "Final Restored State", scanForTables (finalDoc td) (nowMs td) (root td))].

Lemma active_contents_passes nowMs0 acs st :
  fold_left (fun st '(p, ts) => processTabLevel nowMs0 1 (lit "Active Tab Content") p ts st) acs st
  = run_passes (flat_map (fun '(p, ts) => level_passes_with (trigger_passes nowMs0) 1
                                            (lit "Active Tab Content") p ts) acs) st.
Proof.
  revert st. induction acs as [|[p ts] acs IH]; intros st; [reflexivity|].
  cbn [fold_left flat_map]. rewrite run_passes_app, <- IH, processTabLevel_passes.
  reflexivity.
Qed.

Lemma scanForTablesIncludingSubTabs_passes td :
  scanForTablesIncludingSubTabs td
  = collected (run_passes (all_passes td) {| collected := []; seen := ∅ |}).
Proof.
  unfold scanForTablesIncludingSubTabs, all_passes.
  rewrite active_contents_passes, processTabLevel_passes, !run_passes_app.
  reflexivity.
Qed.

(** The collector's invariant: the collected entries reference pairwise
    distinct elements, and [seen] holds exactly those elements. *)
Definition CInv (st : CState) : Prop :=
  NoDup (map element (collected st))
  /\ forall x, In x (map element (collected st)) <-> exists e, x = Some e /\ e ∈ seen st.

(** One iteration of the [found.forEach] loop of [collectVisible]. *)
Definition collect_step (prefix : jstr) (st : CState) (t : DisplayedTable) : CState :=
  match element t with
  | Some e =>
      if bool_decide (e ∈ seen st) then st
      else {| collected := collected st ++
               [{| dt_id := dt_id t ++ lit "-" ++
                            (if bool_decide (prefix = []) then lit "active" else prefix);
                   dt_name := if bool_decide (prefix = []) then dt_name t
                              else prefix ++ [32; c_emdash; 32] ++ dt_name t;
                   element := element t;
                   rowCount := rowCount t;
                   columnCount := columnCount t;
                   isVisible := true |}];
              seen := {[e]} ∪ seen st |}
  | None => st
  end.

Lemma collectVisible_steps prefix found st :
  collectVisible prefix found st
  = fold_left (collect_step prefix) (filter (fun t => isVisible t && (0 <? rowCount t)) found) st.
Proof. reflexivity. Qed.

Lemma collect_step_inv prefix st t : CInv st -> CInv (collect_step prefix st t).
Proof.
  intros [Hnd Hiff]. unfold collect_step.
  destruct (element t) as [e|] eqn:He; [|split; assumption].
  case_bool_decide as Hin; [split; assumption|].
  split; cbn.
  - rewrite map_app. cbn.
    apply NoDup_app. split; [exact Hnd|]. split; [|constructor; [set_solver|constructor]].
    intros x Hx Hx'. apply list_elem_of_singleton in Hx'. subst x.
    apply list_elem_of_In, Hiff in Hx as (e' & [= ->] & He'). contradiction.
  - intros x. rewrite map_app, in_app_iff. cbn. rewrite Hiff. split.
    + intros [(e' & -> & He')|[<-|[]]].
      * exists e'. split; [reflexivity|set_solver].
      * exists e. split; [reflexivity|set_solver].
    + intros (e' & -> & He'). apply elem_of_union in He' as [Hs|Hs].
      * apply elem_of_singleton in Hs. subst e'. right. left. reflexivity.
      * left. eauto.
Qed.

Lemma collect_step_seen prefix st t e :
  e ∈ seen (collect_step prefix st t) <-> e ∈ seen st \/ element t = Some e.
Proof.
  unfold collect_step. destruct (element t) as [e'|]; [|split; [auto|intros [H|H]; [exact H|discriminate]]].
  case_bool_decide as Hin.
  - split; [auto|]. intros [H|[= <-]]; assumption.
  - cbn. rewrite elem_of_union, elem_of_singleton.
    split; [intros [->|H]; auto|intros [H|[= ->]]; auto].
Qed.

Lemma collectVisible_inv prefix found st : CInv st -> CInv (collectVisible prefix found st).
Proof.
  rewrite collectVisible_steps.
  generalize (filter (fun t => isVisible t && (0 <? rowCount t)) found) as l.
  intros l. revert st. induction l as [|t l IH]; intros st H; [exact H|].
  cbn. apply IH, collect_step_inv, H.
Qed.

(** The tables a pass can contribute: visible, with at least one row. *)
Definition contributes (t : DisplayedTable) (e : elem) : Prop :=
  element t = Some e /\ isVisible t = true /\ 0 < rowCount t.

Lemma collect_steps_seen prefix l st e :
  e ∈ seen (fold_left (collect_step prefix) l st)
  <-> e ∈ seen st \/ exists t, In t l /\ element t = Some e.
Proof.
  revert st. induction l as [|t l IH]; intros st; cbn.
  - split; [auto|]. intros [H|(t & [] & _)]; exact H.
  - rewrite IH, collect_step_seen. split.
    + intros [[H|H]|(t' & Ht' & H)]; eauto.
    + intros [H|(t' & [<-|Ht'] & H)]; eauto.
Qed.

Lemma collectVisible_seen prefix found st e :
  e ∈ seen (collectVisible prefix found st)
  <-> e ∈ seen st \/ exists t, In t found /\ contributes t e.
Proof.
  rewrite collectVisible_steps, collect_steps_seen.
  assert (Hf : forall t, In t (filter (fun t => isVisible t && (0 <? rowCount t)) found)
                         <-> In t found /\ isVisible t = true /\ 0 < rowCount t).
  { intros t. rewrite <- !list_elem_of_In, list_elem_of_filter, list_elem_of_In.
    destruct (isVisible t), (0 <? rowCount t) eqn:E; cbn;
      rewrite ?Z.ltb_lt, ?Z.ltb_ge in E; split; intros; intuition (try lia; try discriminate). }
  unfold contributes. split.
  - intros [H|(t & Ht & He)]; [auto|]. apply Hf in Ht. right. exists t. tauto.
  - intros [H|(t & Ht & He & Hv & Hr)]; [auto|]. right. exists t. rewrite Hf. tauto.
Qed.

Lemma run_passes_inv ps st : CInv st -> CInv (run_passes ps st).
Proof.
  revert st. induction ps as [|[p f] ps IH]; intros st H; [exact H|].
  cbn. apply IH, collectVisible_inv, H.
Qed.

Lemma run_passes_seen ps st e :
  e ∈ seen (run_passes ps st)
  <-> e ∈ seen st \/ exists prefix found t, In (prefix, found) ps /\ In t found /\ contributes t e.
Proof.
  revert st. induction ps as [|[p f] ps IH]; intros st; cbn.
  - split; [auto|]. intros [H|(? & ? & ? & [] & _)]; exact H.
  - rewrite IH, collectVisible_seen. split.
    + intros [[H|(t & Ht & Hc)]|(p' & f' & t & Hin & Ht & Hc)]; [auto| |]; right; eauto 10.
    + intros [H|(p' & f' & t & [[= <- <-]|Hin] & Ht & Hc)]; [auto| |]; eauto 10.
Qed.

Lemma filter_element_count (R : list DisplayedTable) (e : elem) :
  NoDup (map element R) ->
  length (filter (fun t => element t = Some e) R)
  = if bool_decide (Some e ∈ map element R) then 1%nat else 0%nat.
Proof.
  induction R as [|t R IH]; intros Hnd; [reflexivity|].
  cbn in Hnd. apply NoDup_cons in Hnd as [Hnot Hnd].
  rewrite filter_cons. cbn [map].
  destruct (decide (element t = Some e)) as [Ht|Ht]; cbn [length]; rewrite IH by exact Hnd;
    repeat case_bool_decide; cbn; try reflexivity; exfalso;
    rewrite ?list_elem_of_cons in *; try rewrite Ht in *; first [tauto | set_solver].
Qed.

(** C2: in the sequence [scanForTablesIncludingSubTabs] returns, no two
    positions hold entries referencing the same table element; and a
    table element has exactly one entry if and only if some pass of the
    run (initial scan, the sub-tab walk, the walk of the active panels,
    the final scan) found it visible and non-empty, so a table shared by
    two tab panels gets one entry. *)
Theorem scanForTablesIncludingSubTabs_dedup td :
  let R := scanForTablesIncludingSubTabs td in
  (forall i j t1 t2, nth_error R i = Some t1 -> nth_error R j = Some t2 ->
                     element t1 = element t2 -> i = j)
  /\ (forall e, length (filter (fun t => element t = Some e) R) = 1%nat
                <-> exists prefix found t, In (prefix, found) (all_passes td) /\ In t found
                                           /\ contributes t e).
Proof.
  cbv zeta. rewrite scanForTablesIncludingSubTabs_passes.
  assert (H0 : CInv {| collected := []; seen := ∅ |}).
  { split; [constructor|]. intros x. cbn. split; [intros []|]. intros (e & _ & He). set_solver. }
  destruct (run_passes_inv (all_passes td) _ H0) as [Hnd Hiff].
  split.
  - intros i j t1 t2 Hi Hj Heq.
    apply NoDup_ListNoDup in Hnd. pose proof (proj1 (List.NoDup_nth_error _) Hnd) as Hn.
    apply Hn.
    + apply nth_error_Some. rewrite nth_error_map, Hi. discriminate.
    + rewrite !nth_error_map, Hi, Hj. cbn. by rewrite Heq.
  - intros e. rewrite filter_element_count by exact Hnd.
    assert (Hs : In (Some e) (map element (collected (run_passes (all_passes td)
                                                        {| collected := []; seen := ∅ |})))
                 <-> exists prefix found t, In (prefix, found) (all_passes td) /\ In t found
                                            /\ contributes t e).
    { rewrite Hiff. split.
      - intros (e' & [= <-] & He). apply run_passes_seen in He as [He|He]; [set_solver|exact He].
      - intros H. exists e. split; [reflexivity|]. apply run_passes_seen. by right. }
    rewrite <- Hs. case_bool_decide as Hb; rewrite list_elem_of_In in Hb;
      split; intros; (discriminate || tauto || reflexivity).
Qed.

(** Two tab panels that both show table 7 (one row): the run returns one
    entry for it. *)
Definition doc_shared : Doc :=
  {| tables_under := fun _ => [7%nat];
     caption_of := fun _ => None;
     previous_siblings := fun _ => [];
     rows_of := fun t => if (t =? 7)%nat then [[td_cell (lit "x")]] else [];
     has_offsetParent := fun _ => true;
     computed_display := fun _ => lit "table";
     computed_visibility := fun _ => lit "visible";
     closest_scroll := fun _ => None;
     parentElement := fun _ => None |}.

Definition tab_shared (name : string) : Trigger :=
  Trig true false false (lit name) None false doc_shared None [].

Definition tabdom_shared : TabDom :=
  {| initialDoc := emptyDoc; root := 0; rootTabs := [tab_shared "One"; tab_shared "Two"];
     activeContents := []; finalDoc := emptyDoc; nowMs := 0 |}.

Example shared_table_collected_once :
  map element (scanForTablesIncludingSubTabs tabdom_shared) = [Some 7%nat].
Proof. vm_compute. reflexivity. Qed.

(* ------------------------------------------------------------------ *)
(** ** CSV document round trip *)

(** The continuation of the parser once a field [field] has ended, at a
    delimiter or at the end of the input. *)
Definition csv_end (s : jstr) (field : jstr) (r : list jstr) (rs : list (list jstr))
    : option (list (list jstr)) :=
  match s with
  | [] => Some (rs ++ [r ++ [field]])
  | c :: s' => if c =? c_comma then csv_go s' PStart [] (r ++ [field]) rs
               else if c =? c_nl then csv_go s' PStart [] [] (rs ++ [r ++ [field]])
               else None
  end.

Definition delim_ok (s : jstr) : Prop :=
  match s with [] => True | c :: _ => c = c_comma \/ c = c_nl end.

Lemma csv_go_term ps s field r rs :
  ps <> PQuo -> delim_ok s -> csv_go s ps field r rs = csv_end s field r rs.
Proof.
  intros Hps Hs. destruct s as [|c s']; [destruct ps; cbn; congruence|].
  destruct Hs as [->| ->]; destruct ps; cbn [csv_go csv_end];
    unfold c_comma, c_nl, c_quote; cbn -[csv_go]; congruence.
Qed.

Definition plain_char (c : Z) : Prop := c <> c_comma /\ c <> c_quote /\ c <> c_nl.

Lemma csv_go_unquoted v s ps field r rs :
  v <> [] -> Forall plain_char v -> ps = PStart \/ ps = PUnq ->
  csv_go (v ++ s) ps field r rs = csv_go s PUnq (field ++ v) r rs.
Proof.
  intros Hne Hv. revert ps field Hne.
  induction Hv as [|c v Hc Hv IH]; intros ps field Hne Hps; [congruence|].
  destruct Hc as (H1 & H2 & H3).
  change ((c :: v) ++ s) with (c :: (v ++ s)).
  assert (Hstep : csv_go (c :: v ++ s) ps field r rs = csv_go (v ++ s) PUnq (field ++ [c]) r rs).
  { cbn. destruct Hps as [-> | ->];
      rewrite (proj2 (Z.eqb_neq _ _) H1), (proj2 (Z.eqb_neq _ _) H3),
              (proj2 (Z.eqb_neq _ _) H2); reflexivity. }
  rewrite Hstep. destruct v as [|c' v'].
  - reflexivity.
  - rewrite IH by (auto || discriminate). by rewrite <- app_assoc.
Qed.

Lemma csv_go_quoted v s field r rs :
  csv_go (double_quotes v ++ c_quote :: s) PQuo field r rs = csv_go s PAfter (field ++ v) r rs.
Proof.
  revert field. induction v as [|c v IH]; intros field.
  - cbn. by rewrite app_nil_r.
  - cbn [double_quotes]. destruct (Z.eqb_spec c c_quote) as [->|Hc].
    + cbn. rewrite IH. by rewrite <- app_assoc.
    + cbn [app csv_go]. rewrite (proj2 (Z.eqb_neq _ _) Hc), IH. by rewrite <- app_assoc.
Qed.

Lemma includes_false_Forall (v : jstr) (c : Z) :
  includes v c = false -> Forall (fun x => x <> c) v.
Proof.
  unfold includes. intros H. apply Forall_forall. intros x Hx Heq. subst c.
  assert (existsb (Z.eqb x) v = true) by (apply existsb_exists; exists x; split;
    [by apply list_elem_of_In | apply Z.eqb_refl]).
  congruence.
Qed.

Lemma csv_go_escape v s r rs :
  delim_ok s -> csv_go (escapeCSVValue v ++ s) PStart [] r rs = csv_end s v r rs.
Proof.
  intros Hs. unfold escapeCSVValue.
  destruct (includes v c_comma || includes v c_quote || includes v c_nl) eqn:E.
  - cbn [app]. rewrite <- app_assoc. cbn [app csv_go].
    change (c_quote =? c_comma) with false. change (c_quote =? c_nl) with false.
    change (c_quote =? c_quote) with true. cbv iota.
    rewrite csv_go_quoted. apply csv_go_term; [discriminate|exact Hs].
  - apply orb_false_iff in E as [E E3]. apply orb_false_iff in E as [E1 E2].
    apply includes_false_Forall in E1, E2, E3.
    destruct v as [|c v'].
    + apply csv_go_term; [discriminate|exact Hs].
    + rewrite csv_go_unquoted; [|discriminate| |auto].
      * apply csv_go_term; [discriminate|exact Hs].
      * apply Forall_forall. intros x Hx. repeat split;
          [eapply Forall_forall in E1|eapply Forall_forall in E2|eapply Forall_forall in E3];
          eauto.
Qed.

(** The continuation once a record [rec] has ended, at a line feed or at
    the end of the input. *)
Definition csv_end_record (s : jstr) (rec : list jstr) (rs : list (list jstr))
    : option (list (list jstr)) :=
  match s with
  | [] => Some (rs ++ [rec])
  | _ :: s' => csv_go s' PStart [] [] (rs ++ [rec])
  end.

Lemma csv_go_line cells s r rs :
  cells <> [] -> (s = [] \/ exists s', s = c_nl :: s') ->
  csv_go (csv_line cells ++ s) PStart [] r rs = csv_end_record s (r ++ cells) rs.
Proof.
  intros Hne Hs. revert r. induction cells as [|c cs IH]; intros r; [congruence|].
  destruct cs as [|c' cs'].
  - unfold csv_line. cbn [map join]. rewrite csv_go_escape.
    + destruct Hs as [->|[s' ->]]; reflexivity.
    + destruct Hs as [->|[s' ->]]; cbn; auto.
  - assert (E : csv_line (c :: c' :: cs')
                 = escapeCSVValue c ++ [c_comma] ++ csv_line (c' :: cs')) by reflexivity.
    rewrite E, <- !app_assoc. cbn [app]. rewrite csv_go_escape by (cbn; auto).
    cbn [csv_end]. rewrite Z.eqb_refl.
    rewrite IH by discriminate. by rewrite <- app_assoc.
Qed.

Lemma csv_go_document (lines : list (list jstr)) rs :
  lines <> [] -> Forall (fun l => l <> []) lines ->
  csv_go (join [c_nl] (map csv_line lines)) PStart [] [] rs = Some (rs ++ lines).
Proof.
  intros Hne Hl. revert rs. induction Hl as [|l ls Hl Hls IH]; intros rs; [congruence|].
  destruct ls as [|l' ls'].
  - cbn [map join]. rewrite <- (app_nil_r (csv_line l)).
    rewrite csv_go_line by auto. reflexivity.
  - cbn [map join]. fold (map csv_line (l' :: ls')).
    rewrite csv_go_line by eauto. cbn [csv_end_record app].
    rewrite IH by discriminate. by rewrite <- app_assoc.
Qed.

(** X: parsing the output of [createCSVContent] with an RFC 4180 parser
    gives back the header row (when it is emitted) followed by the data
    rows, provided the output has at least one line and no row is empty. *)
Theorem createCSVContent_parse (tableData : TableData) (options : Options)
    (Hrows : Forall (fun r => r <> []) (rows tableData))
    (Hlines : (if includeHeaders options && negb (bool_decide (headers tableData = []))
               then [headers tableData] else []) ++ rows tableData <> []) :
  csv_parse (createCSVContent tableData options)
  = Some ((if includeHeaders options && negb (bool_decide (headers tableData = []))
           then [headers tableData] else []) ++ rows tableData).
Proof.
  unfold csv_parse, createCSVContent. cbv zeta. revert Hlines.
  destruct (includeHeaders options && negb (bool_decide (headers tableData = []))) eqn:E;
    intros Hlines.
  - change ([csv_line (headers tableData)] ++ map csv_line (rows tableData))
      with (map csv_line ([headers tableData] ++ rows tableData)).
    rewrite csv_go_document; [reflexivity|exact Hlines|].
    constructor; [|exact Hrows].
    apply andb_true_iff in E as [_ E]. intros H. rewrite H in E. discriminate.
  - change ([] ++ map csv_line (rows tableData)) with (map csv_line ([] ++ rows tableData)).
    rewrite csv_go_document; [reflexivity|exact Hlines|exact Hrows].
Qed.

Lemma createCSVContent_parse_witness :
  Forall (fun r => r <> []) (rows tableA)
  /\ csv_parse (createCSVContent tableA (opts_csv false false))
     = Some ([headers tableA] ++ rows tableA).
Proof.
  assert (H : Forall (fun r => r <> []) (rows tableA)) by (repeat constructor; discriminate).
  split; [exact H|].
  exact (createCSVContent_parse tableA (opts_csv false false) H ltac:(discriminate)).
Defined.

(* ------------------------------------------------------------------ *)
(** ** CSV downloads *)

Lemma for_each_downloads (f : TableData -> jstr * jstr) (tds : list TableData) w :
  for_each (fun td => downloadCSV (fst (f td)) (snd (f td))) tds w
  = ({| els := els w; isExporting := isExporting w;
        trace := trace w ++ map (fun td => DownloadCSV (fst (f td)) (snd (f td))) tds |}, Ok tt).
Proof.
  revert w. induction tds as [|td tds IH]; intros w.
  - destruct w. cbn. by rewrite app_nil_r.
  - cbn [for_each]. unfold bindM at 1. unfold downloadCSV at 1, emit at 1.
    rewrite IH. cbn. by rewrite <- app_assoc.
Qed.

(** X: [exportToCSV] never throws and touches nothing but the downloads:
    with [separateSheets] and more than one table it downloads one file
    per table, in order, named [fileName-<name with every character
    outside [A-Za-z0-9] replaced by _>.csv] and holding that table's
    [createCSVContent]; otherwise it downloads exactly one file,
    [fileName.csv]. *)
Theorem exportToCSV_downloads (nowStr0 : jstr) (tds : list TableData) (config : ExportConfig)
    (w : World) :
  let '(w', r) := exportToCSV nowStr0 tds config w in
  r = Ok tt /\ els w' = els w /\ isExporting w' = isExporting w
  /\ if separateSheets (options config) && (1 <? length tds)%nat
     then trace w' = trace w ++ map (fun td => DownloadCSV (createCSVContent td (options config))
                                  (fileName config ++ lit "-" ++ sanitize (td_name td)
                                   ++ lit ".csv")) tds
     else exists content, trace w' = trace w ++ [DownloadCSV content (fileName config ++ lit ".csv")].
Proof.
  unfold exportToCSV.
  destruct (separateSheets (options config) && (1 <? length tds)%nat).
  - rewrite (for_each_downloads
               (fun td => (createCSVContent td (options config),
                           fileName config ++ lit "-" ++ sanitize (td_name td) ++ lit ".csv"))).
    cbn. auto.
  - unfold downloadCSV, emit. cbn. eauto 6.
Qed.

(** The characters [name.replace(/[^a-z0-9]/gi, '_')] keeps. *)
Definition ascii_alnum (c : Z) : Prop :=
  (48 <= c <= 57) \/ (65 <= c <= 90) \/ (97 <= c <= 122).

Lemma sanitize_char (c : Z) :
  ((if (48 <=? c) && (c <=? 57) || (65 <=? c) && (c <=? 90) || (97 <=? c) && (c <=? 122)
    then c else 95) = c <-> ascii_alnum c \/ c = 95)
  /\ (ascii_alnum (if (48 <=? c) && (c <=? 57) || (65 <=? c) && (c <=? 90)
                      || (97 <=? c) && (c <=? 122) then c else 95)
      \/ (if (48 <=? c) && (c <=? 57) || (65 <=? c) && (c <=? 90)
             || (97 <=? c) && (c <=? 122) then c else 95) = 95).
Proof.
  unfold ascii_alnum.
  destruct (48 <=? c) eqn:E1, (c <=? 57) eqn:E2, (65 <=? c) eqn:E3, (c <=? 90) eqn:E4,
           (97 <=? c) eqn:E5, (c <=? 122) eqn:E6; cbn;
    rewrite ?Z.leb_le, ?Z.leb_gt in *; split; try tauto; try lia.
Qed.

(** X: the file-name part built by [sanitize] has the length of the
    table name and consists of ASCII letters, digits and underscores
    only; sanitizing twice changes nothing, and a name already made of
    ASCII letters and digits is kept as is. *)
Theorem sanitize_safe (name : jstr) :
  length (sanitize name) = length name
  /\ Forall (fun c => ascii_alnum c \/ c = 95) (sanitize name)
  /\ sanitize (sanitize name) = sanitize name
  /\ (Forall ascii_alnum name -> sanitize name = name).
Proof.
  unfold sanitize. split; [apply length_map|]. split; [|split].
  - apply Forall_forall. intros c Hc. apply list_elem_of_In, in_map_iff in Hc as (x & <- & _).
    apply sanitize_char.
  - rewrite map_map. apply map_ext. intros c. apply (proj1 (sanitize_char _)).
    apply sanitize_char.
  - intros H. rewrite <- (map_id name) at 2. apply map_ext_in. intros c Hc.
    apply (proj1 (sanitize_char c)). left.
    apply (proj1 (Forall_forall _ _) H). by apply list_elem_of_In.
Qed.

(* ------------------------------------------------------------------ *)
(** ** Table discovery: names and ids *)

Lemma Forall_imap {A B} (P : B -> Prop) (f : nat -> A -> B) (l : list A) :
  (forall i x, P (f i x)) -> Forall P (imap f l).
Proof.
  revert f. induction l as [|x l IH]; intros f Hf; cbn; constructor; auto.
  apply IH. intros i y. apply Hf.
Qed.

Lemma last_elem {A} (l : list A) (x : A) : last l = Some x -> In x l.
Proof.
  induction l as [|y l IH]; [discriminate|].
  destruct l as [|z l]; cbn; [intros [= ->]; auto|].
  intros H. right. apply IH, H.
Qed.

Lemma walk_siblings_nonempty searchCount sibs tableName previousElements :
  tableName <> [] -> Forall (fun t => t <> []) previousElements ->
  fst (walk_siblings searchCount sibs tableName previousElements) <> []
  /\ Forall (fun t => t <> []) (snd (walk_siblings searchCount sibs tableName previousElements)).
Proof.
  revert searchCount previousElements.
  induction sibs as [|s sibs IH]; intros n pe Htn Hpe; cbn; [auto|].
  destruct (n <? 5); [|auto].
  destruct (is_heading (tagName s)); cbn.
  - split; [|exact Hpe]. case_bool_decide; auto.
  - apply IH; [exact Htn|].
    destruct (negb (bool_decide (trim (sib_text s) = [])) && _) eqn:E; [|exact Hpe].
    apply Forall_app. split; [exact Hpe|]. constructor; [|constructor].
    apply andb_true_iff in E as [E _]. intros H. rewrite H in E. discriminate.
Qed.

Lemma tableNameOf_nonempty dom index table : tableNameOf dom index table <> [].
Proof.
  unfold tableNameOf.
  destruct (caption_of dom table) as [cap|]; [case_bool_decide; [discriminate|assumption]|].
  pose proof (walk_siblings_nonempty 0 (previous_siblings dom table)
                (lit "Table " ++ num_toString (index + 1)) [] ltac:(discriminate)
                ltac:(constructor)) as [Htn Hpe].
  destruct (walk_siblings 0 _ _ _) as [tn pe]. cbn in Htn, Hpe.
  destruct (startsWith tn (lit "Table ") && _); [|exact Htn].
  destruct (last pe) as [x|] eqn:E; cbn; [|exact Htn].
  apply last_elem in E. eapply Forall_forall in Hpe; [exact Hpe|by apply list_elem_of_In].
Qed.

(** X: every table [scanForTables] reports has a non-empty name: the
    non-empty trimmed caption, heading or text snippet it is named after,
    or "Table N". *)
Theorem scanForTables_names_nonempty dom nowMs0 container :
  Forall (fun t => dt_name t <> []) (scanForTables dom nowMs0 container).
Proof.
  unfold scanForTables. apply Forall_imap. intros i x. apply tableNameOf_nonempty.
Qed.







(* ------------------------------------------------------------------ *)
(** ** Tab-aware collector: the entries it returns *)









(* ------------------------------------------------------------------ *)
(** ** Tab-aware collector: the depth guard *)

(** A tab element whose nested tab elements are cut [k] levels below it. *)
Fixpoint prune (k : nat) (t : Trigger) {struct t} : Trigger :=
  match t with
  | Trig b a s txt lab th d p nested =>
      Trig b a s txt lab th d p
        (match k with
         | O => []
         | S k' => map (prune k') nested
         end)
  end.

Lemma prune_fields k t :
  isInactiveButton (prune k t) = isInactiveButton t /\ subTabNameOf (prune k t) = subTabNameOf t.
Proof. destruct t, k; split; reflexivity. Qed.

Lemma trigger_passes_prune nowMs0 (t : Trigger) :
  forall level levelPrefix searchRoot, (level <= 5)%nat ->
    trigger_passes nowMs0 level levelPrefix searchRoot (prune (5 - level) t)
    = trigger_passes nowMs0 level levelPrefix searchRoot t.
Proof.
  induction t as [b a s txt lab th d p nested IHn] using Trigger_ind'.
  intros level levelPrefix searchRoot Hle.
  cbn [prune trigger_passes]. unfold subTabNameOf. cbn [tg_textContent tg_ariaLabel].
  destruct th; [reflexivity|]. f_equal.
  destruct p as [p|]; [|reflexivity]. unfold level_passes_with.
  destruct (Nat.ltb_spec 5 (S level)) as [Hlt|Hge]; [reflexivity|].
  replace (5 - level)%nat with (S (5 - S level)) by lia.
  induction IHn as [|k ks Hk _ IHks]; [reflexivity|].
  cbn [map flat_map]. rewrite IHks. f_equal.
  destruct (prune_fields (5 - S level) k) as [-> _].
  destruct (isInactiveButton k); [|reflexivity].
  apply Hk. lia.
Qed.

Lemma level_passes_prune nowMs0 level levelPrefix searchRoot ts :
  (level <= 5)%nat ->
  level_passes_with (trigger_passes nowMs0) level levelPrefix searchRoot
    (map (prune (5 - level)) ts)
  = level_passes_with (trigger_passes nowMs0) level levelPrefix searchRoot ts.
Proof.
  intros Hle. unfold level_passes_with. destruct (5 <? level)%nat; [reflexivity|].
  induction ts as [|k ks IH]; [reflexivity|].
  cbn [map flat_map]. rewrite IH.
  destruct (prune_fields (5 - level) k) as [-> _].
  destruct (isInactiveButton k); [|reflexivity].
  by rewrite trigger_passes_prune.
Qed.

(** The DOM situations with every tab element cut at the depth the walk
    can reach: five levels below the root, four below an active panel. *)
Definition prune_tabdom (td : TabDom) : TabDom :=
  {| initialDoc := initialDoc td; root := root td;
     rootTabs := map (prune 5) (rootTabs td);
     activeContents := map (fun '(p, ts) => (p, map (prune 4) ts)) (activeContents td);
     finalDoc := finalDoc td; nowMs := nowMs td |}.

(** X: the recursion guard [level > 5] bounds the tab walk: tab elements
    nested more than five levels below the root (more than four below an
    active panel) are never clicked, and whatever they would reveal never
    changes the result of [scanForTablesIncludingSubTabs]. *)
Theorem scanForTablesIncludingSubTabs_depth_bound td :
  scanForTablesIncludingSubTabs (prune_tabdom td) = scanForTablesIncludingSubTabs td.
Proof.
  rewrite !scanForTablesIncludingSubTabs_passes. f_equal. f_equal.
  unfold all_passes, prune_tabdom. cbn [initialDoc root rootTabs activeContents finalDoc nowMs].
  f_equal. f_equal.
  - exact (level_passes_prune (nowMs td) 0 [] (root td) (rootTabs td) ltac:(lia)).
  - f_equal. induction (activeContents td) as [|[p ts] acs IH]; [reflexivity|].
    cbn [map flat_map]. rewrite IH. f_equal.
    exact (level_passes_prune (nowMs td) 1 (lit "Active Tab Content") p ts ltac:(lia)).
Qed.

(* ------------------------------------------------------------------ *)
(** ** Export orchestrator: composition *)

(** Computations that leave every element's inline styles and scroll
    offset as they found them, whether they return or throw. *)
Definition StorePres {A} (m : M A) : Prop :=
  forall w x, get_el (fst (m w)) x = get_el w x.

(** Computations that neither log, download nor touch the flag. *)
Definition Quiet {A} (m : M A) : Prop :=
  forall w, trace (fst (m w)) = trace w /\ isExporting (fst (m w)) = isExporting w.

Lemma StorePres_ret {A} (a : A) : StorePres (ret a).
Proof. intros w x. reflexivity. Qed.

Lemma StorePres_throw {A} (e : exn) : StorePres (A:=A) (throw e).
Proof. intros w x. reflexivity. Qed.

Lemma StorePres_bind {A B} (m : M A) (k : A -> M B) :
  StorePres m -> (forall a, StorePres (k a)) -> StorePres (bindM m k).
Proof.
  intros Hm Hk w x. unfold bindM. specialize (Hm w x).
  destruct (m w) as [w' [a|e]]; cbn in *; [rewrite Hk|]; exact Hm.
Qed.

Lemma StorePres_emit ef : StorePres (emit ef).
Proof. intros w x. reflexivity. Qed.

Lemma StorePres_setIsExporting b : StorePres (setIsExporting b).
Proof. intros w x. reflexivity. Qed.

Lemma StorePres_try_finally {A} (m : M A) fin :
  StorePres m -> StorePres fin -> StorePres (try_finally m fin).
Proof.
  intros Hm Hf w x. unfold try_finally. specialize (Hm w x).
  destruct (m w) as [w1 r]. specialize (Hf w1 x).
  destruct (fin w1) as [w2 [u|e]]; cbn in *; congruence.
Qed.

Lemma StorePres_try_catch {A} (m : M A) h :
  StorePres m -> (forall e, StorePres (h e)) -> StorePres (try_catch m h).
Proof.
  intros Hm Hh w x. unfold try_catch. specialize (Hm w x).
  destruct (m w) as [w1 [a|e]]; cbn in *; [exact Hm|]. rewrite Hh. exact Hm.
Qed.

Lemma StorePres_for_each {A} (f : A -> M unit) l :
  (forall a, StorePres (f a)) -> StorePres (for_each f l).
Proof.
  intros Hf. induction l as [|a l IH]; cbn; [apply StorePres_ret|].
  apply StorePres_bind; [apply Hf|intros _; exact IH].
Qed.

Lemma StorePres_mapM {A B} (f : A -> M B) l :
  (forall a, StorePres (f a)) -> StorePres (mapM f l).
Proof.
  intros Hf. induction l as [|a l IH]; cbn; [apply StorePres_ret|].
  apply StorePres_bind; [apply Hf|intros b].
  apply StorePres_bind; [exact IH|intros bs; apply StorePres_ret].
Qed.

Lemma StorePres_exportToCSV nowStr0 tds config : StorePres (exportToCSV nowStr0 tds config).
Proof.
  unfold exportToCSV. destruct (_ && _).
  - apply StorePres_for_each. intros td. apply StorePres_emit.
  - apply StorePres_emit.
Qed.

Lemma StorePres_exportToPDF env tds config : StorePres (exportToPDF env tds config).
Proof.
  unfold exportToPDF. destruct (pdfLib env tds config); [apply StorePres_throw|apply StorePres_emit].
Qed.

Lemma StorePres_exportBody env config : StorePres (exportBody env config).
Proof.
  unfold exportBody. apply StorePres_bind.
  - apply StorePres_mapM. intros [t e]. apply StorePres_bind; [|intros; apply StorePres_ret].
    intros w x. apply extractTableData_store_unchanged.
  - intros tds. repeat case_bool_decide;
      auto using StorePres_throw, StorePres_exportToPDF, StorePres_exportToCSV.
Qed.

(** X: whatever the outcome of [exportDisplayedData] (success, a throw
    during extraction, an empty selection, an unsupported format, a
    failure of the PDF library), every element's inline width, max-width,
    overflow and scroll offset afterwards equal those before the call. *)
Theorem exportDisplayedData_store_unchanged env config w x :
  get_el (fst (exportDisplayedData env config w)) x = get_el w x.
Proof.
  revert w x. unfold exportDisplayedData.
  apply StorePres_bind; [apply StorePres_setIsExporting|intros _].
  apply StorePres_try_finally; [|apply StorePres_setIsExporting].
  apply StorePres_try_catch; [apply StorePres_exportBody|intros e].
  apply StorePres_bind; [apply StorePres_emit|intros _; apply StorePres_throw].
Qed.



Lemma Quiet_ret {A} (a : A) : Quiet (ret a).
Proof. intros w. split; reflexivity. Qed.

Lemma Quiet_throw {A} (e : exn) : Quiet (A:=A) (throw e).
Proof. intros w. split; reflexivity. Qed.

Lemma Quiet_get : Quiet get.
Proof. intros w. split; reflexivity. Qed.

Lemma Quiet_update_el e f : Quiet (update_el e f).
Proof. intros w. split; reflexivity. Qed.

Lemma Quiet_checkpoint raise i : Quiet (checkpoint raise i).
Proof. unfold checkpoint. destruct (raise i); [apply Quiet_throw|apply Quiet_ret]. Qed.

Lemma Quiet_bind {A B} (m : M A) (k : A -> M B) :
  Quiet m -> (forall a, Quiet (k a)) -> Quiet (bindM m k).
Proof.
  intros Hm Hk w. unfold bindM. specialize (Hm w).
  destruct (m w) as [w' [a|e]]; cbn in *; [|exact Hm].
  destruct (Hk a w') as [H1 H2]. destruct Hm as [H3 H4]. split; congruence.
Qed.

Lemma Quiet_try_finally {A} (m : M A) fin : Quiet m -> Quiet fin -> Quiet (try_finally m fin).
Proof.
  intros Hm Hf w. unfold try_finally. specialize (Hm w).
  destruct (m w) as [w1 r]. specialize (Hf w1).
  destruct (fin w1) as [w2 [u|e]]; cbn in *; destruct Hm, Hf; split; congruence.
Qed.

Create HintDb quiet.
#[local] Hint Resolve Quiet_ret Quiet_throw Quiet_get Quiet_update_el Quiet_checkpoint
  Quiet_bind Quiet_try_finally : quiet.

Lemma Quiet_extractTableData dom raise nowStr0 table options0 :
  Quiet (extractTableData dom raise nowStr0 table options0).
Proof.
  unfold extractTableData. apply Quiet_bind; [auto with quiet|intros w0].
  apply Quiet_try_finally.
  - unfold extractTableData_try.
    repeat (apply Quiet_bind; [|intros ?]); try destruct tableContainerOf;
      unfold set_overflow, set_scrollLeft, set_width, set_maxWidth;
      repeat (apply Quiet_bind; [|intros ?]); auto with quiet.
  - unfold extractTableData_finally, set_overflow, set_scrollLeft, set_width, set_maxWidth.
    repeat (apply Quiet_bind; [|intros ?]); try destruct tableContainerOf;
      repeat (apply Quiet_bind; [|intros ?]); auto with quiet.
Qed.

Lemma bindM_ok {A B} (m : M A) (k : A -> M B) w w1 a :
  m w = (w1, Ok a) -> bindM m k w = k a w1.
Proof. intros H. unfold bindM. by rewrite H. Qed.

(** The [TableData] [exportDisplayedData] builds for a selected table
    when its extraction completes. *)
Definition selected_data (env : Env) (config : ExportConfig) (te : DisplayedTable * elem)
    : TableData :=
  let data := tableDataOf (options config) (nowStr env) (rows_of (doc env) (snd te)) in
  {| td_name := dt_name (fst te); headers := headers data; rows := rows data;
     metadata := metadata data |}.

Lemma extraction_all_ok env config w :
  raises env = (fun _ => noRaise) ->
  let '(w', r) := mapM (fun '(t, e) =>
            let! data := extractTableData (doc env) (raises env e) (nowStr env) e (options config) in
            ret {| td_name := dt_name t; headers := headers data; rows := rows data;
                   metadata := metadata data |})
         (selected_elements (tables config)) w in
  r = Ok (map (selected_data env config) (selected_elements (tables config)))
  /\ trace w' = trace w /\ isExporting w' = isExporting w.
Proof.
  intros Hr. rewrite Hr. generalize (selected_elements (tables config)) as l.
  intros l. revert w. induction l as [|[t e] l IH]; intros w; [cbn; auto|].
  cbn [mapM map]. cbv beta iota.
  pose proof (extractTableData_result (doc env) (nowStr env) e (options config) w) as Hres.
  pose proof (Quiet_extractTableData (doc env) noRaise (nowStr env) e (options config) w)
    as [Ht Hx].
  destruct (extractTableData _ _ _ _ _ w) as [w1 r1] eqn:Ex. cbn in Hres, Ht, Hx. subst r1.
  erewrite bindM_ok; [|erewrite bindM_ok; [reflexivity|exact Ex]].
  specialize (IH w1). destruct (mapM _ l w1) as [w2 r2] eqn:Em. destruct IH as (-> & H1 & H2).
  erewrite bindM_ok; [|exact Em]. cbn. split; [reflexivity|]. split; congruence.
Qed.

(** X: when no selected table has a null element reference missing from
    the selection (at least one is non-null), every extraction
    completes, and the format is not one of "pdf", "csv" and "excel",
    the export is rejected with "Unsupported export format: <format>"
    after logging it; the flag is set and reset around it and nothing is
    downloaded or saved. *)
Theorem exportDisplayedData_unsupported_format env config w
    (Hraise : raises env = (fun _ => noRaise))
    (Hsel : selected_elements (tables config) <> [])
    (Hfmt : format config <> lit "pdf" /\ format config <> lit "csv"
            /\ format config <> lit "excel") :
  let msg := lit "Unsupported export format: " ++ format config in
  let '(w', r) := exportDisplayedData env config w in
  r = Throw msg /\ isExporting w' = false
  /\ trace w' = trace w ++ [SetIsExporting true; ConsoleError msg; SetIsExporting false].
Proof.
  destruct Hfmt as (H1 & H2 & H3).
  unfold exportDisplayedData, bindM at 1, setIsExporting at 1.
  cbv beta iota zeta. unfold try_finally, try_catch, exportBody. unfold bindM at 1.
  pose proof (extraction_all_ok env config
                {| els := els w; isExporting := true; trace := trace w ++ [SetIsExporting true] |}
                Hraise) as Hok.
  destruct (mapM _ _ _) as [w1 r1]. destruct Hok as (-> & Ht & Hx). cbn in Ht, Hx.
  rewrite bool_decide_false
    by (intros Hn; apply Hsel; apply (f_equal length) in Hn; rewrite length_map in Hn;
        by destruct (selected_elements (tables config))).
  rewrite !bool_decide_false by assumption.
  unfold throw, bindM, emit, setIsExporting. cbv beta iota. cbn [trace isExporting].
  split; [reflexivity|]. split; [reflexivity|]. rewrite Ht, <- !app_assoc. reflexivity.
Qed.

Definition config_fmt (fmt : jstr) : ExportConfig :=
  {| format := fmt; fileName := lit "report"; options := opts_with true false false;
     tables := [{| dt_id := lit "t1"; dt_name := lit "Sales"; element := Some 1%nat;
                   rowCount := 3; columnCount := 2; isVisible := true |}];
     tabName := lit "Sales" |}.

Lemma exportDisplayedData_unsupported_format_witness :
  raises (env_of doc_sales) = (fun _ => noRaise)
  /\ selected_elements (tables (config_fmt (lit "xlsx"))) <> []
  /\ (format (config_fmt (lit "xlsx")) <> lit "pdf" /\ format (config_fmt (lit "xlsx")) <> lit "csv"
      /\ format (config_fmt (lit "xlsx")) <> lit "excel")
  /\ let msg := lit "Unsupported export format: " ++ lit "xlsx" in
     let '(w', r) := exportDisplayedData (env_of doc_sales) (config_fmt (lit "xlsx")) world0 in
     r = Throw msg /\ isExporting w' = false
     /\ trace w' = trace world0 ++ [SetIsExporting true; ConsoleError msg; SetIsExporting false].
Proof.
  assert (Hr : raises (env_of doc_sales) = (fun _ => noRaise)) by reflexivity.
  assert (Hs : selected_elements (tables (config_fmt (lit "xlsx"))) <> []) by discriminate.
  assert (Hf : format (config_fmt (lit "xlsx")) <> lit "pdf"
               /\ format (config_fmt (lit "xlsx")) <> lit "csv"
               /\ format (config_fmt (lit "xlsx")) <> lit "excel")
    by (repeat split; discriminate).
  split; [exact Hr|]. split; [exact Hs|]. split; [exact Hf|].
  exact (exportDisplayedData_unsupported_format (env_of doc_sales) (config_fmt (lit "xlsx"))
           world0 Hr Hs Hf).
Defined.

(** X: when at least one selected table has a non-null element, every
    extraction completes and the format is "csv", the export succeeds:
    the flag ends false, and between setting and resetting it the only
    effects are the CSV downloads of [exportToCSV], at least one; no
    error is logged. *)
Theorem exportDisplayedData_csv_success env config w
    (Hraise : raises env = (fun _ => noRaise))
    (Hsel : selected_elements (tables config) <> [])
    (Hfmt : format config = lit "csv") :
  let '(w', r) := exportDisplayedData env config w in
  r = Ok tt /\ isExporting w' = false
  /\ exists ds, ds <> [] /\ Forall (fun ef => exists c f, ef = DownloadCSV c f) ds
     /\ trace w' = trace w ++ [SetIsExporting true] ++ ds ++ [SetIsExporting false].
Proof.
  unfold exportDisplayedData, bindM at 1, setIsExporting at 1.
  cbv beta iota zeta.
  unfold try_finally, try_catch, exportBody.
  unfold bindM at 1.
  pose proof (extraction_all_ok env config
    {| els := els w; isExporting := true; trace := trace w ++ [SetIsExporting true] |}
    Hraise) as Hok.
  destruct (mapM _ _ _) as [w1 r1].
  destruct Hok as (-> & Ht & Hx).
  cbn in Ht, Hx.
  assert (Hne : map (selected_data env config) (selected_elements (tables config)) <> []).
  { intros Hn. apply Hsel. apply (f_equal length) in Hn. rewrite length_map in Hn.
    by destruct (selected_elements (tables config)). }
  rewrite (bool_decide_false _ Hne), Hfmt.
  rewrite bool_decide_false by discriminate.
  rewrite bool_decide_true by reflexivity.
  pose proof (exportToCSV_downloads (nowStr env)
    (map (selected_data env config) (selected_elements (tables config))) config w1) as Hcsv.
  destruct (exportToCSV _ _ _ w1) as [w2 r2].
  destruct Hcsv as (-> & _ & Hx2 & Htr).
  unfold setIsExporting.
  cbv beta iota.
  cbn [trace isExporting].
  split; [reflexivity|].
  split; [reflexivity|].
  revert Htr.
  match goal with |- (if ?b then _ else _) -> _ => destruct b end; intros Htr.
  - exists (map (fun td : TableData =>
             DownloadCSV (createCSVContent td (options config))
               (fileName config ++ lit "-" ++ sanitize (td_name td) ++ lit ".csv"))
           (map (selected_data env config) (selected_elements (tables config)))).
    split; [intros Hn; apply map_eq_nil in Hn; by apply Hne|]. split.
    + apply Forall_forall. intros ef Hef. apply list_elem_of_In, in_map_iff in Hef.
      destruct Hef as (td & <- & _). do 2 eexists. reflexivity.
    + rewrite Htr, Ht, <- !app_assoc. reflexivity.
  - destruct Htr as [content Htr].
    exists [DownloadCSV content (fileName config ++ lit ".csv")].
    split; [discriminate|]. split; [constructor; [do 2 eexists; reflexivity|constructor]|].
    rewrite Htr, Ht, <- !app_assoc. reflexivity.
Qed.

Lemma exportDisplayedData_csv_success_witness :
  raises (env_of doc_sales) = (fun _ => noRaise)
  /\ selected_elements (tables (config_fmt (lit "csv"))) <> []
  /\ format (config_fmt (lit "csv")) = lit "csv"
  /\ let '(w', r) := exportDisplayedData (env_of doc_sales) (config_fmt (lit "csv")) world0 in
     r = Ok tt /\ isExporting w' = false
     /\ exists ds, ds <> [] /\ Forall (fun ef => exists c f, ef = DownloadCSV c f) ds
        /\ trace w' = trace world0 ++ [SetIsExporting true] ++ ds ++ [SetIsExporting false].
Proof.
  assert (Hr : raises (env_of doc_sales) = (fun _ => noRaise)) by reflexivity.
  assert (Hs : selected_elements (tables (config_fmt (lit "csv"))) <> []) by discriminate.
  assert (Hf : format (config_fmt (lit "csv")) = lit "csv") by reflexivity.
  split; [exact Hr|]. split; [exact Hs|]. split; [exact Hf|].
  exact (exportDisplayedData_csv_success (env_of doc_sales) (config_fmt (lit "csv"))
           world0 Hr Hs Hf).
Defined.

(* ------------------------------------------------------------------ *)
(** ** Extractor: row accounting *)

Lemma numbered_rows_widths options n rs :
  Forall2 (fun out r => length out
                        = if includeRowNumbers options then S (length r) else length r)
          (numbered_rows options n rs) rs.
Proof.
  revert n. induction rs as [|r rs IH]; intros n; cbn [numbered_rows]; constructor; [|apply IH].
  destruct (includeRowNumbers options); cbn [length]; by rewrite length_map.
Qed.

Lemma data_rows_length options rs :
  (length (data_rows options rs) + (if first_row_is_header options rs then 1 else 0))%nat
  = length rs.
Proof.
  destruct rs as [|r rs]; [reflexivity|]. unfold data_rows, first_row_is_header.
  destruct (existsb cell_th r || includeHeaders options); cbn [length]; lia.
Qed.

Lemma tableDataOf_metadata options nowStr rs m :
  metadata (tableDataOf options nowStr rs) = Some m -> originalRowCount m = Z.of_nat (length rs).
Proof.
  unfold tableDataOf. destruct (extract_rows options 0 rs [] []) as [h d]. cbn [metadata].
  destruct (includeMetadata options); [intros [= <-]; reflexivity|discriminate].
Qed.

(** X: without raised errors, [extractTableData] loses no row of the
    table: the data rows it returns, plus the header row when the first
    row is taken as headers, are all the [tr] rows; each returned row has
    one value per cell of its source row (one more with row numbers); and
    the metadata's [originalRowCount], when included, counts the header
    row along with the exported rows. *)
Theorem extractTableData_row_accounting dom nowStr table options w td
    (H : snd (extractTableData dom noRaise nowStr table options w) = Ok td) :
  let rs := rows_of dom table in
  (length (rows td) + (if first_row_is_header options rs then 1 else 0))%nat = length rs
  /\ Forall2 (fun out r => length out
                           = if includeRowNumbers options then S (length r) else length r)
             (rows td) (data_rows options rs)
  /\ (forall m, metadata td = Some m ->
        originalRowCount m
        = Z.of_nat (length (rows td)) + (if first_row_is_header options rs then 1 else 0)).
Proof.
  cbv zeta. rewrite extractTableData_result in H. injection H as <-.
  destruct (tableDataOf_parts options nowStr (rows_of dom table)) as [_ Hr].
  rewrite Hr, length_numbered_rows, data_rows_length.
  split; [reflexivity|]. split; [apply numbered_rows_widths|].
  intros m Hm. rewrite (tableDataOf_metadata _ _ _ _ Hm), <- (data_rows_length options).
  destruct (first_row_is_header options (rows_of dom table)); lia.
Qed.

Definition opts_meta : Options :=
  {| includeHeaders := false; preserveFormatting := false; includeRowNumbers := true;
     separateSheets := false; includeMetadata := true |}.

Lemma extractTableData_row_accounting_witness :
  let td := tableDataOf opts_meta [] (rows_of doc_sales 1) in
  snd (extractTableData doc_sales noRaise [] 1 opts_meta world0) = Ok td
  /\ let rs := rows_of doc_sales 1 in
     (length (rows td) + (if first_row_is_header opts_meta rs then 1 else 0))%nat = length rs
     /\ Forall2 (fun out r => length out
                              = if includeRowNumbers opts_meta then S (length r) else length r)
                (rows td) (data_rows opts_meta rs)
     /\ (forall m, metadata td = Some m ->
           originalRowCount m
           = Z.of_nat (length (rows td)) + (if first_row_is_header opts_meta rs then 1 else 0)).
Proof.
  cbv zeta.
  assert (H : snd (extractTableData doc_sales noRaise [] 1 opts_meta world0)
              = Ok (tableDataOf opts_meta [] (rows_of doc_sales 1))) by (vm_compute; reflexivity).
  split; [exact H|].
  exact (extractTableData_row_accounting doc_sales [] 1 opts_meta world0 _ H).
Defined.

(* ------------------------------------------------------------------ *)
(** ** The earlier collector of [src/unnamed/part_000] *)

(** Distinct elements and the exact set of collected elements, for any
    sequence of [collectVisible] calls started from an empty state. *)
Lemma run_passes_dedup ps :
  let R := collected (run_passes ps {| collected := []; seen := ∅ |}) in
  (forall i j t1 t2, nth_error R i = Some t1 -> nth_error R j = Some t2 ->
                     element t1 = element t2 -> i = j)
  /\ (forall e, length (filter (fun t => element t = Some e) R) = 1%nat
                <-> exists prefix found t, In (prefix, found) ps /\ In t found
                                           /\ contributes t e).
Proof.
  cbv zeta.
  assert (H0 : CInv {| collected := []; seen := ∅ |}).
  { split; [constructor|]. intros x. cbn. split; [intros []|]. intros (e & _ & He). set_solver. }
  destruct (run_passes_inv ps _ H0) as [Hnd Hiff].
  split.
  - intros i j t1 t2 Hi Hj Heq.
    apply NoDup_ListNoDup in Hnd. pose proof (proj1 (List.NoDup_nth_error _) Hnd) as Hn.
    apply Hn.
    + apply nth_error_Some. rewrite nth_error_map, Hi. discriminate.
    + rewrite !nth_error_map, Hi, Hj. cbn. by rewrite Heq.
  - intros e. rewrite filter_element_count by exact Hnd.
    assert (Hs : In (Some e) (map element (collected (run_passes ps
                                                        {| collected := []; seen := ∅ |})))
                 <-> exists prefix found t, In (prefix, found) ps /\ In t found
                                            /\ contributes t e).
    { rewrite Hiff. split.
      - intros (e' & [= <-] & He). apply run_passes_seen in He as [He|He]; [set_solver|exact He].
      - intros H. exists e. split; [reflexivity|]. apply run_passes_seen. by right. }
    rewrite <- Hs. case_bool_decide as Hb; rewrite list_elem_of_In in Hb;
      split; intros; (discriminate || tauto || reflexivity).
Qed.

Module Part000.

(** The DOM situations the earlier [scanForTablesIncludingSubTabs(container)]
    meets: the initial DOM, the root, the [role="tab"] elements under the
    root (read once, before any click) and the time [Date.now()] reads. *)
Record FlatTabDom := {
  f_initialDoc : Doc;
  f_root : elem;
  f_tabs : list Trigger;
  f_nowMs : Z
}.

(** [scanForTablesIncludingSubTabs(container)] of the earlier version: the
    unprefixed [collectVisible()], then [collectVisible(subTabName)] after
    activating each inactive [BUTTON] tab element of the flat list (a
    trigger whose activation throws is skipped by the [catch]). Restoring
    the first initially active trigger touches neither [collected] nor
    [seen]; there is no final pass and no nested walk. *)
Definition scanForTablesIncludingSubTabs (td : FlatTabDom) : list DisplayedTable :=
  let st0 := {| collected := []; seen := ∅ |} in
  let st1 := collectVisible [] (scanForTables (f_initialDoc td) (f_nowMs td) (f_root td)) st0 in
  let triggers := filter (fun t => isInactiveButton t) (f_tabs td) in
  let st2 := fold_left
               (fun st trigger =>
                  let subTabName := subTabNameOf trigger in
                  if tg_clickThrows trigger then st
                  else collectVisible subTabName
                         (scanForTables (tg_docAfter trigger) (f_nowMs td) (f_root td)) st)
               triggers st1 in
  collected st2.

(** Every [collectVisible] call of one run, in order. *)
Definition passes (td : FlatTabDom) : list (jstr * list DisplayedTable) :=
  ([], scanForTables (f_initialDoc td) (f_nowMs td) (f_root td))
  :: flat_map (fun t => if tg_clickThrows t then []
                        else [(subTabNameOf t,
                               scanForTables (tg_docAfter t) (f_nowMs td) (f_root td))])
              (filter (fun t => isInactiveButton t) (f_tabs td)).

Lemma scan_passes td :
  scanForTablesIncludingSubTabs td = collected (run_passes (passes td) {| collected := []; seen := ∅ |}).
Proof.
  unfold scanForTablesIncludingSubTabs, passes. cbn [run_passes fold_left]. fold run_passes.
  generalize (collectVisible [] (scanForTables (f_initialDoc td) (f_nowMs td) (f_root td))
                {| collected := []; seen := ∅ |}) as st.
  induction (filter (fun t => isInactiveButton t) (f_tabs td)) as [|t ts IH]; intros st;
    [reflexivity|].
  cbn [fold_left flat_map]. rewrite run_passes_app, <- IH.
  destruct (tg_clickThrows t); reflexivity.
Qed.

(** X: the earlier collector also returns each table element at most once,
    and an element has its one entry exactly when one of its passes (the
    unprefixed scan, or the scan after activating an inactive tab
    element) found it visible and non-empty. *)
Theorem scanForTablesIncludingSubTabs_dedup_v0 td :
  let R := scanForTablesIncludingSubTabs td in
  (forall i j t1 t2, nth_error R i = Some t1 -> nth_error R j = Some t2 ->
                     element t1 = element t2 -> i = j)
  /\ (forall e, length (filter (fun t => element t = Some e) R) = 1%nat
                <-> exists prefix found t, In (prefix, found) (passes td) /\ In t found
                                           /\ contributes t e).
Proof. cbv zeta. rewrite scan_passes. apply run_passes_dedup. Qed.




End Part000.
